(** * Order-analytics pipeline of the dashboard route

    A shallow embedding of the analytics route of the app: the paginated
    order fetch of [loader] with its retry loop, and the in-memory rollup
    [processAnalyticsData] that turns the fetched orders into the
    [AnalyticsData] document the dashboard renders. *)

From Stdlib Require Import List String Ascii ZArith Arith Bool Lia.
From Stdlib Require Import Permutation Sorted DecimalString DecimalPos DecimalZ.
From Stdlib Require Import PrimFloat Uint63 FloatOps FloatAxioms SpecFloat.
Import ListNotations.

Open Scope string_scope.
Open Scope list_scope.

Set Implicit Arguments.

(** ** JavaScript numbers

    Money is held in JavaScript numbers, that is IEEE-754 binary64: the
    program is the instance [float64] below.  The definitions are written
    once over the operations they use, so that what does not depend on the
    rounding is proved whatever the arithmetic, and what does depend on it
    says what it needs of the addition. *)

Class JsNumber : Type := {
  num : Type;
  nzero : num;
  nadd : num -> num -> num;
  nmul : num -> num -> num;
  ndiv : num -> num -> num;
  nofZ : Z -> num
}.

(** Conversion of an integer-valued count to binary64 (exact below 2^53). *)
Definition float_of_Z (z : Z) : float :=
  if (z <? 0)%Z
  then PrimFloat.opp (PrimFloat.of_uint63 (Uint63.of_Z (- z)))
  else PrimFloat.of_uint63 (Uint63.of_Z z).

#[export] Instance float64 : JsNumber := {|
  num := float;
  nzero := 0%float;
  nadd := PrimFloat.add;
  nmul := PrimFloat.mul;
  ndiv := PrimFloat.div;
  nofZ := float_of_Z
|}.


(** ** JavaScript [Map] with string keys

    A [Map] iterates in insertion order, and [set] on a key that is present
    replaces the value in place: an association list without duplicate keys. *)

Definition JsMap (V : Type) : Type := list (string * V).

Fixpoint map_get {V} (m : JsMap V) (k : string) : option V :=
  match m with
  | [] => None
  | (k', v) :: r => if String.eqb k' k then Some v else map_get r k
  end.

Fixpoint map_set {V} (m : JsMap V) (k : string) (v : V) : JsMap V :=
  match m with
  | [] => [(k, v)]
  | (k', v') :: r =>
      if String.eqb k' k then (k', v) :: r else (k', v') :: map_set r k v
  end.

Definition map_keys {V} (m : JsMap V) : list string := map fst m.
Definition map_values {V} (m : JsMap V) : list V := map snd m.

(** [x || d] where [x] is the result of [Map.get] and every stored value is
    either truthy or equal to [d]. *)
Definition orElse {V} (x : option V) (d : V) : V :=
  match x with Some v => v | None => d end.

(** [a || d] on a string that may be [null]: the empty string is falsy. *)
Definition strOr (x : option string) (d : string) : string :=
  match x with
  | Some s => if String.eqb s "" then d else s
  | None => d
  end.

(** [Array.prototype.sort(cmp)]: the standard requires the sort to be
    stable, and for a comparator that is a total preorder the result of a
    stable sort is unique; it is computed here by insertion. *)
Fixpoint sort_insert {A} (cmp : A -> A -> Z) (x : A) (l : list A) : list A :=
  match l with
  | [] => [x]
  | y :: r => if (0 <? cmp x y)%Z then y :: sort_insert cmp x r else x :: y :: r
  end.

Fixpoint array_sort {A} (cmp : A -> A -> Z) (l : list A) : list A :=
  match l with
  | [] => []
  | x :: r => sort_insert cmp x (array_sort cmp r)
  end.

(** Descending by [key], the order that [(a, b) => key(b) - key(a)] asks for. *)
Definition descending {A} (key : A -> Z) (a b : A) : Prop := (key b <= key a)%Z.

(** [arr.slice(0, n)] *)
Definition slice0 {A} (n : nat) (l : list A) : list A := firstn n l.

(** ** Dates

    [new Date(order.processedAt)] read in the time zone of the runtime: what
    [toLocaleDateString('en', {year: 'numeric', month: 'short'})] renders is
    the calendar year and the month, or the text of an invalid date. *)

Inductive Month : Type :=
  Jan | Feb | Mar | Apr | May | Jun | Jul | Aug | Sep | Oct | Nov | Dec.

Inductive JsDate : Type :=
| InvalidDate
| LocalDate (year : positive) (month : Month).

Definition shortMonth (m : Month) : string :=
  match m with
  | Jan => "Jan" | Feb => "Feb" | Mar => "Mar" | Apr => "Apr"
  | May => "May" | Jun => "Jun" | Jul => "Jul" | Aug => "Aug"
  | Sep => "Sep" | Oct => "Oct" | Nov => "Nov" | Dec => "Dec"
  end.

Definition decimal (p : positive) : string :=
  NilEmpty.string_of_uint (Pos.to_uint p).

Definition toLocaleDateString (d : JsDate) : string :=
  match d with
  | InvalidDate => "Invalid Date"
  | LocalDate y m => shortMonth m ++ " " ++ decimal y
  end.

Definition months2025 : list string :=
  [ "Jan 2025"; "Feb 2025"; "Mar 2025"; "Apr 2025";
    "May 2025"; "Jun 2025"; "Jul 2025"; "Aug 2025";
    "Sep 2025"; "Oct 2025"; "Nov 2025"; "Dec 2025" ].

(** ** The aggregation stage *)

Section Aggregation.

Context {N : JsNumber}.

(** *** Input: the order nodes of the GraphQL response

    Fields the code reads without a guard are required by the type; fields
    it guards are optional.  [amount] is
    [parseFloat(order.totalPriceSet.shopMoney.amount)], [variantPrice] is
    [parseFloat(item.variant.price)], which the code reads only for a line
    item that has a product (a line item with a product and no variant is
    outside this type), [customer] is [order.customer.id],
    [shippingAddress] is the [city] of the address when there is an address.
    [processedAt] is [None] for a falsy value.  Quantities are GraphQL [Int]
    and counts are array lengths: integers that binary64 holds exactly. *)

Record Product : Type := { title : string }.

Record LineItem : Type := {
  quantity : Z;
  product : option Product;
  variantPrice : num
}.

Record Order : Type := {
  amount : num;
  processedAt : option JsDate;
  displayFulfillmentStatus : string;
  displayFinancialStatus : string;
  customer : option string;
  lineItems : list LineItem;
  shippingAddress : option (option string)
}.

(** *** Output: the [AnalyticsData] interface *)

(** [{ orders, revenue }], the value of [monthlyStats] and [locationStats];
    paired with its key it is an entry of [monthlyData] or [locationData]. *)
Record Stat : Type := { orders : nat; revenue : num }.

(** [{ name, quantity, revenue, orders }] *)
Record ProductStat : Type := {
  p_name : string;
  p_quantity : Z;
  p_revenue : num;
  p_orders : nat
}.

Record Segments : Type := {
  newCustomers : nat;
  returningCustomers : nat;
  vipCustomers : nat
}.

Record AnalyticsData : Type := {
  totalOrders : nat;
  totalRevenue : num;
  averageOrderValue : num;
  fulfilledOrders : nat;
  paidOrders : nat;
  monthlyData : list (string * Stat);
  productData : list ProductStat;
  customerSegments : Segments;
  locationData : list (string * Stat)
}.

(** *** The accumulators of the [orders.forEach] loop *)

Record Acc : Type := {
  acc_monthlyStats : JsMap Stat;
  acc_productStats : JsMap ProductStat;
  acc_customerOrders : JsMap nat;
  acc_locationStats : JsMap Stat;
  acc_totalRevenue : num;
  acc_fulfilledCount : nat;
  acc_paidCount : nat
}.

Definition zeroStat : Stat := {| orders := 0; revenue := nzero |}.

(** [months2025.forEach(month => monthlyStats.set(month, {orders: 0, revenue: 0}))] *)
Definition initMonthlyStats : JsMap Stat :=
  fold_left (fun m month => map_set m month zeroStat) months2025 [].

Definition initAcc : Acc := {|
  acc_monthlyStats := initMonthlyStats;
  acc_productStats := [];
  acc_customerOrders := [];
  acc_locationStats := [];
  acc_totalRevenue := nzero;
  acc_fulfilledCount := 0;
  acc_paidCount := 0
|}.

(** [data.orders += 1; data.revenue += amount] *)
Definition bumpStat (amount : num) (data : Stat) : Stat :=
  {| orders := orders data + 1; revenue := nadd (revenue data) amount |}.

Definition monthlyStep (monthlyStats : JsMap Stat) (order : Order) : JsMap Stat :=
  match processedAt order with
  | Some d =>
      let month := toLocaleDateString d in
      let monthData := orElse (map_get monthlyStats month) zeroStat in
      map_set monthlyStats month (bumpStat (amount order) monthData)
  | None => monthlyStats
  end.

Definition customerStep (customerOrders : JsMap nat) (order : Order) : JsMap nat :=
  match customer order with
  | Some customerId =>
      let orderCount := orElse (map_get customerOrders customerId) 0 in
      map_set customerOrders customerId (orderCount + 1)
  | None => customerOrders
  end.

Definition newProductStat (key : string) : ProductStat :=
  {| p_name := key; p_quantity := 0; p_revenue := nzero; p_orders := 0 |}.

Definition bumpProduct (item : LineItem) (stats : ProductStat) : ProductStat :=
  {| p_name := p_name stats;
     p_quantity := p_quantity stats + quantity item;
     p_revenue := nadd (p_revenue stats)
                       (nmul (nofZ (quantity item)) (variantPrice item));
     p_orders := p_orders stats + 1 |}.

Definition itemStep (productStats : JsMap ProductStat) (item : LineItem)
  : JsMap ProductStat :=
  match product item with
  | Some prod =>
      let key := title prod in
      let stats := orElse (map_get productStats key) (newProductStat key) in
      map_set productStats key (bumpProduct item stats)
  | None => productStats
  end.

Definition productStep (productStats : JsMap ProductStat) (order : Order)
  : JsMap ProductStat :=
  fold_left itemStep (lineItems order) productStats.

Definition locationStep (locationStats : JsMap Stat) (order : Order) : JsMap Stat :=
  match shippingAddress order with
  | Some city =>
      let location := strOr city "Unknown" in
      let locData := orElse (map_get locationStats location) zeroStat in
      map_set locationStats location (bumpStat (amount order) locData)
  | None => locationStats
  end.

(** One turn of [orders.forEach(({ node: order }) => { ... })]. *)
Definition orderStep (a : Acc) (order : Order) : Acc := {|
  acc_monthlyStats := monthlyStep (acc_monthlyStats a) order;
  acc_productStats := productStep (acc_productStats a) order;
  acc_customerOrders := customerStep (acc_customerOrders a) order;
  acc_locationStats := locationStep (acc_locationStats a) order;
  acc_totalRevenue := nadd (acc_totalRevenue a) (amount order);
  acc_fulfilledCount :=
    if String.eqb (displayFulfillmentStatus order) "FULFILLED"
    then S (acc_fulfilledCount a) else acc_fulfilledCount a;
  acc_paidCount :=
    if String.eqb (displayFinancialStatus order) "PAID"
    then S (acc_paidCount a) else acc_paidCount a
|}.

(** [customerOrders.forEach((count) => { ... })] *)
Definition segmentStep (s : Segments) (count : nat) : Segments :=
  if (count =? 1)%nat then
    {| newCustomers := S (newCustomers s);
       returningCustomers := returningCustomers s;
       vipCustomers := vipCustomers s |}
  else if (5 <=? count)%nat then
    {| newCustomers := newCustomers s;
       returningCustomers := returningCustomers s;
       vipCustomers := S (vipCustomers s) |}
  else
    {| newCustomers := newCustomers s;
       returningCustomers := S (returningCustomers s);
       vipCustomers := vipCustomers s |}.

Definition noSegments : Segments :=
  {| newCustomers := 0; returningCustomers := 0; vipCustomers := 0 |}.

Definition segmentsOf (customerOrders : JsMap nat) : Segments :=
  fold_left segmentStep (map_values customerOrders) noSegments.

(** [(a, b) => b.quantity - a.quantity] *)
Definition byQuantityDesc (a b : ProductStat) : Z :=
  (p_quantity b - p_quantity a)%Z.

(** [(a, b) => b.orders - a.orders] *)
Definition byOrdersDesc (a b : string * Stat) : Z :=
  (Z.of_nat (orders (snd b)) - Z.of_nat (orders (snd a)))%Z.

Definition processAnalyticsData (orders : list Order) : AnalyticsData :=
  let a := fold_left orderStep orders initAcc in
  let totalOrders := List.length orders in
  {| totalOrders := totalOrders;
     totalRevenue := acc_totalRevenue a;
     averageOrderValue :=
       if (0 <? totalOrders)%nat
       then ndiv (acc_totalRevenue a) (nofZ (Z.of_nat totalOrders))
       else nzero;
     fulfilledOrders := acc_fulfilledCount a;
     paidOrders := acc_paidCount a;
     monthlyData := acc_monthlyStats a;
     productData :=
       slice0 10 (array_sort byQuantityDesc (map_values (acc_productStats a)));
     customerSegments := segmentsOf (acc_customerOrders a);
     locationData := slice0 10 (array_sort byOrdersDesc (acc_locationStats a)) |}.

End Aggregation.

Arguments Product : clear implicits.
Arguments LineItem : clear implicits.
Arguments Order : clear implicits.
Arguments Stat : clear implicits.
Arguments ProductStat : clear implicits.
Arguments AnalyticsData : clear implicits.
Arguments Acc : clear implicits.

(** ** The fetch stage of [loader] *)

(** [s.includes(sub)] *)
Fixpoint includes (s sub : string) : bool :=
  String.prefix sub s ||
  match s with
  | EmptyString => false
  | String _ r => includes r sub
  end.

(** A thrown value: its [message] and what [String(error)] gives. *)
Record JsError : Type := { message : string; asString : string }.

(** [new Error(msg)] *)
Definition newError (msg : string) : JsError :=
  {| message := msg; asString := "Error: " ++ msg |}.

(** How a block ends: normally, or by a [throw]. *)
Inductive Completion (A : Type) : Type :=
| Normal (value : A)
| Throw (error : JsError).

Arguments Normal {A} value.
Arguments Throw {A} error.

(** What the program does to the outside, in the order it does it. *)
Inductive Effect : Type :=
| Delay (ms : N)
| Graphql (after : option string).

Record World : Type := { requests : nat; effects : list Effect }.

Definition world0 : World := {| requests := 0; effects := [] |}.

Definition MAX_PAGES : nat := 20.
Definition maxRetries : nat := 3.

(** The outcome of the [catch] block. *)
Inductive Handler : Type :=
| Retry (retryCount : nat) (waitTime : N)
| Break.

(** [error.message || String(error)] *)
Definition errorMessageOf (error : JsError) : string :=
  if String.eqb (message error) "" then asString error else message error.

(** The [if / else if / else] of the [catch] block. *)
Definition onError (errorMessage : string) (retryCount : nat) : Handler :=
  if (includes errorMessage "Throttled" || includes errorMessage "fetch failed")
     && (retryCount <? maxRetries)%nat
  then
    let retryCount := S retryCount in
    Retry retryCount (4000 * N.of_nat retryCount)%N
  else if (retryCount <? maxRetries)%nat then
    let retryCount := S retryCount in
    Retry retryCount (3000 * N.of_nat retryCount)%N
  else Break.

Section Fetch.

Context {N : JsNumber}.

(** [data.orders.pageInfo] and [data.orders] *)
Record PageInfo : Type := { pi_hasNextPage : bool; pi_endCursor : option string }.

Record OrdersConnection : Type := {
  edges : option (list (Order N));
  pageInfo : option PageInfo
}.

(** The JSON document of a response: the messages of [errors], and
    [data.orders] when both [data] and [orders] are there. *)
Record OrdersData : Type := {
  errors : list string;
  dataOrders : option OrdersConnection
}.

(** [await admin.graphql(...)] followed by [await ordersResponse.json()]
    either rejects (with the value the [catch] block receives) or resolves to
    a document. *)
Inductive Response : Type :=
| Rejects (error : JsError)
| Resolves (ordersData : OrdersData).

(** The upstream API, as the response it gives to the n-th request. *)
Definition Upstream : Type := nat -> Response.

(** The variables of the pagination loop. *)
Record FetchState : Type := {
  allOrders : list (Order N);
  hasNextPage : bool;
  cursor : option string;
  pageCount : nat
}.

Definition fetchState0 : FetchState :=
  {| allOrders := []; hasNextPage := true; cursor := None; pageCount := 0 |}.

Definition delay (ms : N.t) (w : World) : World :=
  {| requests := requests w; effects := effects w ++ [Delay ms] |}.

Definition graphql (up : Upstream) (after : option string) (w : World)
  : Response * World :=
  (up (requests w),
   {| requests := S (requests w); effects := effects w ++ [Graphql after] |}).

(** The statements of the [try] block after the response has arrived. *)
Definition onResponse (resp : Response) (st : FetchState) : Completion FetchState :=
  match resp with
  | Rejects error => Throw error
  | Resolves ordersData =>
      match errors ordersData with
      | errorMessage :: _ =>
          if includes errorMessage "Throttled"
          then Throw (newError "Throttled")
          else Throw (newError ("GraphQL Error: " ++ errorMessage))
      | [] =>
          match dataOrders ordersData with
          | None => Throw (newError "Invalid GraphQL response structure")
          | Some conn =>
              Normal
                {| allOrders := allOrders st ++ orElse (edges conn) [];
                   hasNextPage :=
                     match pageInfo conn with
                     | Some p => pi_hasNextPage p
                     | None => false
                     end;
                   cursor :=
                     match pageInfo conn with
                     | Some p =>
                         match pi_endCursor p with
                         | Some c => if String.eqb c "" then None else Some c
                         | None => None
                         end
                     | None => None
                     end;
                   pageCount := S (pageCount st) |}
          end
      end
  end.

(** The whole [try] block: the pacing delay, the request, the checks. *)
Definition attempt (up : Upstream) (st : FetchState) (w : World)
  : Completion FetchState * World :=
  let w1 := if (0 <? pageCount st)%nat then delay 1500%N w else w in
  let (resp, w2) := graphql up (cursor st) w1 in
  (onResponse resp st, w2).

(** [while (!success && retryCount <= maxRetries) { try ... catch ... }];
    the result carries [success].  A turn of the loop uses one unit of
    [fuel]; [None] stands for fuel used up, which [retryLoop_spec] shows does
    not happen with the fuel the callers give. *)
Fixpoint retryLoop (fuel : nat) (up : Upstream) (st : FetchState)
  (retryCount : nat) (w : World) : option (bool * FetchState * World) :=
  if (retryCount <=? maxRetries)%nat then
    match fuel with
    | O => None
    | S fuel' =>
        match attempt up st w with
        | (Normal st', w') => Some (true, st', w')
        | (Throw error, w') =>
            match onError (errorMessageOf error) retryCount with
            | Retry retryCount' waitTime =>
                retryLoop fuel' up st retryCount' (delay waitTime w')
            | Break => Some (false, st, w')
            end
        end
    end
  else Some (false, st, w).

(** [while (hasNextPage && pageCount < MAX_PAGES) { ...; if (!success) break; }] *)
Fixpoint pageLoop (fuel : nat) (up : Upstream) (st : FetchState) (w : World)
  : option (FetchState * World) :=
  if hasNextPage st && (pageCount st <? MAX_PAGES)%nat then
    match fuel with
    | O => None
    | S fuel' =>
        match retryLoop (S maxRetries) up st 0 w with
        | None => None
        | Some (true, st', w') => pageLoop fuel' up st' w'
        | Some (false, st', w') => Some (st', w')
        end
    end
  else Some (st, w).

Definition fetchOrders (up : Upstream) : option (FetchState * World) :=
  pageLoop MAX_PAGES up fetchState0 world0.

(** [loader], up to the [analytics] field of the document it returns: the
    fetch stage followed by [processAnalyticsData(allOrders)].  Every throw
    of the [try] block is taken by its [catch] block, which throws nothing,
    so the stage hands over normally.  The requests for products and
    locations that come in between do not touch [allOrders]; they and the
    [json] response are left out. *)
Definition loader (up : Upstream) : option (Completion (AnalyticsData N)) :=
  match fetchOrders up with
  | None => None
  | Some (st, _) => Some (Normal (processAnalyticsData (allOrders st)))
  end.

End Fetch.

Arguments OrdersConnection : clear implicits.
Arguments OrdersData : clear implicits.
Arguments Response : clear implicits.
Arguments Upstream : clear implicits.
Arguments FetchState : clear implicits.

(** ** Reading a [Map] that is built by updates

    Every [Map] of the rollup is filled by the same idiom:
    [v = m.get(k) || d; ...change v...; m.set(k, v)]. *)

Definition map_update {V} (d : string -> V) (m : JsMap V) (k : string)
  (f : V -> V) : JsMap V :=
  map_set m k (f (orElse (map_get m k) (d k))).

Definition apply_updates {V} (d : string -> V) (m : JsMap V)
  (ups : list (string * (V -> V))) : JsMap V :=
  fold_left (fun m u => map_update d m (fst u) (snd u)) ups m.

(** The changes that a list of updates makes to the value under [k]. *)
Definition updatesFor {V} (k : string) (ups : list (string * (V -> V)))
  : list (V -> V) :=
  map snd (filter (fun u => String.eqb (fst u) k) ups).

Definition apply_all {V} (fs : list (V -> V)) (v : V) : V :=
  fold_left (fun v f => f v) fs v.

Definition hasKey (ks : list string) (k : string) : bool :=
  existsb (String.eqb k) ks.

(** Keys in the order in which they are first seen. *)
Definition addKey (ks : list string) (k : string) : list string :=
  if hasKey ks k then ks else ks ++ [k].

Definition firstSeen (ks : list string) : list string :=
  fold_left addKey ks [].

(** ** The updates that one order makes to each [Map] *)

Section Updates.

Context {N : JsNumber}.

Definition monthlyUpdates (order : Order N) : list (string * (Stat N -> Stat N)) :=
  match processedAt order with
  | Some d => [(toLocaleDateString d, bumpStat (amount order))]
  | None => []
  end.

Definition customerUpdates (order : Order N) : list (string * (nat -> nat)) :=
  match customer order with
  | Some customerId => [(customerId, fun orderCount => orderCount + 1)]
  | None => []
  end.

Definition itemUpdates (item : LineItem N)
  : list (string * (ProductStat N -> ProductStat N)) :=
  match product item with
  | Some prod => [(title prod, bumpProduct item)]
  | None => []
  end.

Definition productUpdates (order : Order N)
  : list (string * (ProductStat N -> ProductStat N)) :=
  flat_map itemUpdates (lineItems order).

Definition locationUpdates (order : Order N) : list (string * (Stat N -> Stat N)) :=
  match shippingAddress order with
  | Some city => [(strOr city "Unknown", bumpStat (amount order))]
  | None => []
  end.

(** The accumulators when [orders.forEach] has ended. *)
Definition finalAcc (orders : list (Order N)) : Acc N :=
  fold_left orderStep orders initAcc.

End Updates.

(** ** Line items without a product record *)

Section AbsentProducts.

Context {N : JsNumber}.

Definition hasProduct (item : LineItem N) : bool :=
  match product item with Some _ => true | None => false end.

(** The order with every line item whose [product] is absent removed. *)
Definition dropAbsentProducts (order : Order N) : Order N :=
  {| amount := amount order;
     processedAt := processedAt order;
     displayFulfillmentStatus := displayFulfillmentStatus order;
     displayFinancialStatus := displayFinancialStatus order;
     customer := customer order;
     lineItems := filter hasProduct (lineItems order);
     shippingAddress := shippingAddress order |}.

End AbsentProducts.

(** ** What a month holds

    The orders that fall in a month by their [processedAt] label, and the
    entry they add up to. *)

Section MonthStat.

Context {N : JsNumber}.

Definition inMonth (month : string) (order : Order N) : bool :=
  match processedAt order with
  | Some d => String.eqb (toLocaleDateString d) month
  | None => false
  end.

Definition statOf (orders : list (Order N)) : Stat N :=
  {| orders := List.length orders;
     revenue := fold_left nadd (map (@amount N) orders) nzero |}.

Definition monthStat (month : string) (orders : list (Order N)) : Stat N :=
  statOf (filter (inMonth month) orders).

End MonthStat.

(** ** Customers and their orders *)

Section Customers.

Context {N : JsNumber}.

Definition isCustomer (customerId : string) (order : Order N) : bool :=
  match customer order with
  | Some c => String.eqb c customerId
  | None => false
  end.

(** The number of orders of the sequence placed by a customer. *)
Definition orderCountOf (customerId : string) (l : list (Order N)) : nat :=
  List.length (filter (isCustomer customerId) l).

(** The customer ids of the orders that have a customer, in input order. *)
Definition customerIds (l : list (Order N)) : list string :=
  flat_map (fun o => match customer o with Some c => [c] | None => [] end) l.

(** The distinct customers of a sequence of orders. *)
Definition customersOf (l : list (Order N)) : list string :=
  firstSeen (customerIds l).

End Customers.

(** ** What a product and a location hold *)

Section Entries.

Context {N : JsNumber}.

(** The titles of the line items that have a product, in input order. *)
Definition productTitles (l : list (Order N)) : list string :=
  flat_map
    (fun o =>
       flat_map
         (fun i => match product i with Some prod => [title prod] | None => [] end)
         (lineItems o))
    l.

Definition hasTitle (key : string) (item : LineItem N) : bool :=
  match product item with
  | Some prod => String.eqb (title prod) key
  | None => false
  end.

(** The line items of the orders sold under a product title. *)
Definition itemsOf (key : string) (l : list (Order N)) : list (LineItem N) :=
  filter (hasTitle key) (flat_map (@lineItems N) l).

(** The entry that a list of line items adds up to. *)
Definition productStatOf (key : string) (items : list (LineItem N)) : ProductStat N :=
  {| p_name := key;
     p_quantity := fold_left Z.add (map (@quantity N) items) 0%Z;
     p_revenue :=
       fold_left nadd
         (map (fun i => nmul (nofZ (quantity i)) (variantPrice i)) items) nzero;
     p_orders := List.length items |}.

(** The location labels of the orders that have an address, in input order. *)
Definition locationLabels (l : list (Order N)) : list string :=
  flat_map
    (fun o =>
       match shippingAddress o with
       | Some city => [strOr city "Unknown"]
       | None => []
       end)
    l.

Definition atLocation (location : string) (order : Order N) : bool :=
  match shippingAddress order with
  | Some city => String.eqb (strOr city "Unknown") location
  | None => false
  end.

(** The entries of [productStats] and of [locationStats] in [Map] order,
    before they are sorted. *)
Definition productEntries (l : list (Order N)) : list (ProductStat N) :=
  map_values (acc_productStats (finalAcc l)).

Definition locationEntries (l : list (Order N)) : list (string * Stat N) :=
  acc_locationStats (finalAcc l).

End Entries.

(** ** Reading the fetch stage *)

(** The failures that the first branch of the [catch] block recognises: a
    throttling signal, or the network failure of [fetch]. *)
Definition isTransient (errorMessage : string) : bool :=
  includes errorMessage "Throttled" || includes errorMessage "fetch failed".

(** The factor of the wait in the branch that a message takes. *)
Definition backoffBase (errorMessage : string) : N :=
  if isTransient errorMessage then 4000%N else 3000%N.

(** The pacing delay that precedes a request once a page has been fetched. *)
Definition pacing {N : JsNumber} (st : FetchState N) : list Effect :=
  if (0 <? pageCount st)%nat then [Delay 1500%N] else [].

Section Responses.

Context {N : JsNumber}.

(** Whether the [try] block accepts a response. *)
Definition accepted (resp : Response N) : bool :=
  match resp with
  | Rejects _ => false
  | Resolves ordersData =>
      match errors ordersData, dataOrders ordersData with
      | [], Some _ => true
      | _, _ => false
      end
  end.

(** The page of orders that the [try] block takes from a response. *)
Definition pageOf (resp : Response N) : list (Order N) :=
  match resp with
  | Rejects _ => []
  | Resolves ordersData =>
      match errors ordersData, dataOrders ordersData with
      | [], Some conn => orElse (edges conn) []
      | _, _ => []
      end
  end.

(** The message that the [catch] block reads when the response is not
    accepted. *)
Definition thrownMessage (resp : Response N) : option string :=
  match resp with
  | Rejects error => Some (errorMessageOf error)
  | Resolves ordersData =>
      match errors ordersData, dataOrders ordersData with
      | errorMessage :: _, _ =>
          if includes errorMessage "Throttled" then Some "Throttled"
          else Some ("GraphQL Error: " ++ errorMessage)%string
      | [], None => Some "Invalid GraphQL response structure"
      | [], Some _ => None
      end
  end.

(** The orders taken from [n] responses in a row, from the one numbered
    [from] on. *)
Definition collected (up : Upstream N) (from n : nat) : list (Order N) :=
  flat_map (fun i => pageOf (up i)) (seq from n).

(** The pipeline fails when [loader] ends by a throw instead of a summary. *)
Definition pipelineFails (up : Upstream N) : Prop :=
  exists error, loader up = Some (Throw error).

(** The first page cannot be fetched: its first attempt and its three
    retries all fail. *)
Definition firstPageExhausted (up : Upstream N) : Prop :=
  forall n, n < S maxRetries -> accepted (up n) = false.

End Responses.

(** ** Sample inputs *)

(** An order that carries only a total. *)
Definition orderOfAmount {N : JsNumber} (a : num) : Order N :=
  {| amount := a;
     processedAt := None;
     displayFulfillmentStatus := "UNFULFILLED";
     displayFinancialStatus := "PENDING";
     customer := None;
     lineItems := [];
     shippingAddress := None |}.

(** [parseFloat] of "0.10", "0.20" and "0.30": the nearest binary64 values. *)
Definition tenth1 : float := 0x1.999999999999ap-4%float.
Definition tenth2 : float := 0x1.999999999999ap-3%float.
Definition tenth3 : float := 0x1.3333333333333p-2%float.

Definition tenths : list (Order float64) :=
  [ @orderOfAmount float64 tenth1; @orderOfAmount float64 tenth2;
    @orderOfAmount float64 tenth3 ].

Definition tenthsReversed : list (Order float64) :=
  [ @orderOfAmount float64 tenth3; @orderOfAmount float64 tenth2;
    @orderOfAmount float64 tenth1 ].

(** An order of 200.00 processed in December 2024. *)
Definition orderDec2024 : Order float64 :=
  {| amount := 200%float;
     processedAt := Some (LocalDate 2024 Dec);
     displayFulfillmentStatus := "FULFILLED";
     displayFinancialStatus := "PAID";
     customer := None;
     lineItems := [];
     shippingAddress := None |}.

(** An order of 75.00 processed in January 2026. *)
Definition orderJan2026 : Order float64 :=
  {| amount := 75%float;
     processedAt := Some (LocalDate 2026 Jan);
     displayFulfillmentStatus := "FULFILLED";
     displayFinancialStatus := "PAID";
     customer := None;
     lineItems := [];
     shippingAddress := None |}.

(** An upstream that is down: every request ends in the network failure of
    [fetch]. *)
Definition upDown : Upstream float64 :=
  fun _ => Rejects {| message := "fetch failed"; asString := "TypeError: fetch failed" |}.

(** An upstream whose every answer lacks [data.orders]. *)
Definition upMalformed : Upstream float64 :=
  fun _ => Resolves {| errors := []; dataOrders := None |}.

(** An upstream that signals throttling on every request. *)
Definition upThrottled : Upstream float64 :=
  fun _ => Resolves {| errors := ["Throttled"]; dataOrders := None |}.

(** An order of a given total processed in a month of 2025. *)
Definition orderIn (m : Month) (a : float) : Order float64 :=
  {| amount := a;
     processedAt := Some (LocalDate 2025 m);
     displayFulfillmentStatus := "FULFILLED";
     displayFinancialStatus := "PAID";
     customer := None;
     lineItems := [];
     shippingAddress := None |}.

Definition marchAndNovember : list (Order float64) :=
  [orderIn Mar 100%float; orderIn Nov 50%float].

(** An order of a given customer, and one of a guest. *)
Definition orderBy (customerId : string) : Order float64 :=
  {| amount := 10%float;
     processedAt := None;
     displayFulfillmentStatus := "FULFILLED";
     displayFinancialStatus := "PAID";
     customer := Some customerId;
     lineItems := [];
     shippingAddress := None |}.

Definition guestOrder : Order float64 := @orderOfAmount float64 10%float.

(** One order of "a", four of "b" and five of "c", "b" and "c" interleaved. *)
Definition ordersOfThree : list (Order float64) :=
  [ orderBy "b"; orderBy "c"; orderBy "b"; orderBy "c"; orderBy "c";
    orderBy "b"; orderBy "c"; orderBy "b"; orderBy "c" ].

Definition boundaryOrders : list (Order float64) :=
  [orderBy "a"] ++ guestOrder :: ordersOfThree.

(** The three orders of the end-to-end scenario. *)
Definition scenarioOrder (a : float) (fulfilled paid : bool) (m : Month)
  (customerId productTitle : string) (qty : Z) (city : string) : Order float64 :=
  {| amount := a;
     processedAt := Some (LocalDate 2025 m);
     displayFulfillmentStatus := if fulfilled then "FULFILLED" else "UNFULFILLED";
     displayFinancialStatus := if paid then "PAID" else "PENDING";
     customer := Some customerId;
     lineItems :=
       [ {| quantity := qty;
            product := Some {| title := productTitle |};
            variantPrice := 50%float |} ];
     shippingAddress := Some (Some city) |}.

Definition scenario : list (Order float64) :=
  [ scenarioOrder 100%float true true Mar "c1" "Widget" 2 "Springfield";
    scenarioOrder 50%float false false Mar "c1" "Widget" 1 "Springfield";
    scenarioOrder 200%float true true Apr "c2" "Gadget" 4 "Shelbyville" ].

(** ** The run of the fetch stage, read off the responses *)

Section Run.

Context {N : JsNumber}.

(** [pageInfo?.endCursor || null] and [pageInfo?.hasNextPage || false] of an
    accepted response. *)
Definition cursorOf (resp : Response N) : option string :=
  match resp with
  | Rejects _ => None
  | Resolves ordersData =>
      match dataOrders ordersData with
      | Some conn =>
          match pageInfo conn with
          | Some p =>
              match pi_endCursor p with
              | Some c => if String.eqb c "" then None else Some c
              | None => None
              end
          | None => None
          end
      | None => None
      end
  end.

Definition moreOf (resp : Response N) : bool :=
  match resp with
  | Rejects _ => false
  | Resolves ordersData =>
      match dataOrders ordersData with
      | Some conn =>
          match pageInfo conn with
          | Some p => pi_hasNextPage p
          | None => false
          end
      | None => false
      end
  end.

(** Among the first [n] responses: how many are accepted, *)
Fixpoint acceptedBefore (up : Upstream N) (n : nat) : nat :=
  match n with
  | O => 0
  | S i => if accepted (up i) then S (acceptedBefore up i) else acceptedBefore up i
  end.

(** how many in a row, at the end, are not, *)
Fixpoint failsBefore (up : Upstream N) (n : nat) : nat :=
  match n with
  | O => 0
  | S i => if accepted (up i) then 0 else S (failsBefore up i)
  end.

(** the cursor of the last accepted one, *)
Fixpoint latestCursor (up : Upstream N) (n : nat) : option string :=
  match n with
  | O => None
  | S i => if accepted (up i) then cursorOf (up i) else latestCursor up i
  end.

(** and whether the last accepted one has a next page. *)
Fixpoint moreAfter (up : Upstream N) (n : nat) : bool :=
  match n with
  | O => true
  | S i => if accepted (up i) then moreOf (up i) else moreAfter up i
  end.

(** What the request numbered [i] adds to the trace: the pacing delay once
    a page is in, the request with the cursor of the last page, and the wait
    before a retry when it fails with retries left. *)
Definition segment (up : Upstream N) (i : nat) : list Effect :=
  (if (0 <? acceptedBefore up i)%nat then [Delay 1500%N] else [])
  ++ [Graphql (latestCursor up i)]
  ++ match thrownMessage (up i) with
     | Some m =>
         if (failsBefore up i <? maxRetries)%nat
         then [Delay (backoffBase m * N.of_nat (S (failsBefore up i)))%N]
         else []
     | None => []
     end.

(** No request follows the first [n] when the last page had no next page,
    or [MAX_PAGES] pages are in, or a request and its retries have failed. *)
Definition stops (up : Upstream N) (n : nat) : bool :=
  negb (moreAfter up n)
  || (MAX_PAGES <=? acceptedBefore up n)%nat
  || (maxRetries <? failsBefore up n)%nat.

(** The loop variables after the first [n] responses. *)
Fixpoint replay (up : Upstream N) (n : nat) : FetchState N :=
  match n with
  | O => fetchState0
  | S i =>
      match onResponse (up i) (replay up i) with
      | Normal st' => st'
      | Throw _ => replay up i
      end
  end.

End Run.

Definition isGraphql (e : Effect) : bool :=
  match e with Graphql _ => true | Delay _ => false end.

(** ** Totals over the entries of a [Map] *)

(** The sum of a measure over the values of a [Map]. *)
Definition totalOf {V} (measure : V -> Z) (m : JsMap V) : Z :=
  fold_right Z.add 0%Z (map (fun e => measure (snd e)) m).

Section OrderKinds.

Context {N : JsNumber}.

Definition hasDate (order : Order N) : bool :=
  match processedAt order with Some _ => true | None => false end.

Definition hasCustomer (order : Order N) : bool :=
  match customer order with Some _ => true | None => false end.

Definition hasAddress (order : Order N) : bool :=
  match shippingAddress order with Some _ => true | None => false end.

(** The line items of the orders that have a product record. *)
Definition soldItems (l : list (Order N)) : list (LineItem N) :=
  filter hasProduct (flat_map (@lineItems N) l).

End OrderKinds.

(** ** The dashboard: the period filter of the monthly chart *)

Definition monthNames : list string :=
  ["Jan"; "Feb"; "Mar"; "Apr"; "May"; "Jun"; "Jul"; "Aug"; "Sep"; "Oct"; "Nov"; "Dec"].

(** [now.getMonth()], from 0 to 11, and [now.getFullYear()]. *)
Record Now : Type := { currentMonth : Z; currentYear : Z }.

(** The [switch] on [selectedPeriod]. *)
Definition monthsToShow (selectedPeriod : string) : nat :=
  if String.eqb selectedPeriod "30days" then 1
  else if String.eqb selectedPeriod "3months" then 3
  else if String.eqb selectedPeriod "6months" then 6
  else 12.

(** An array element and a number inside a template literal. *)
Definition elementText (l : list string) (k : Z) : string :=
  if (k <? 0)%Z then "undefined" else nth (Z.to_nat k) l "undefined".

Definition numberText (z : Z) : string := NilZero.string_of_int (Z.to_int z).

(** The body of [for (let i = 0; i < monthsToShow; i++)]: the label pushed
    at turn [i]. *)
Definition targetLabel (now : Now) (i : nat) : string :=
  let targetMonth := (currentMonth now - Z.of_nat i)%Z in
  let targetYear := currentYear now in
  if (targetMonth <? 0)%Z
  then elementText monthNames (targetMonth + 12) ++ " " ++ numberText (targetYear - 1)
  else elementText monthNames targetMonth ++ " " ++ numberText targetYear.

Definition monthsToInclude (selectedPeriod : string) (now : Now) : list string :=
  map (targetLabel now) (seq 0 (monthsToShow selectedPeriod)).

(** The month numbered [k] of the year. *)
Definition monthAt (k : Z) : Month :=
  nth (Z.to_nat k) [Jan; Feb; Mar; Apr; May; Jun; Jul; Aug; Sep; Oct; Nov; Dec] Jan.

Definition monthIndex (m : Month) : Z :=
  match m with
  | Jan => 0 | Feb => 1 | Mar => 2 | Apr => 3 | May => 4 | Jun => 5
  | Jul => 6 | Aug => 7 | Sep => 8 | Oct => 9 | Nov => 10 | Dec => 11
  end.

Section Dashboard.

Context {N : JsNumber}.

(** [new Date(label).getTime()], which is left to the runtime: [None] is
    NaN. *)
Variable getTime : string -> option Z.

(** [(a, b) => dateA.getTime() - dateB.getTime()]; a comparator that
    returns NaN counts as returning 0. *)
Definition byDate (a b : string * Stat N) : Z :=
  match getTime (fst a), getTime (fst b) with
  | Some timeA, Some timeB => (timeA - timeB)%Z
  | _, _ => 0%Z
  end.

Definition getFilteredMonthlyData (selectedPeriod : string) (now : Now)
  (monthlyData : list (string * Stat N)) : list (string * Stat N) :=
  if String.eqb selectedPeriod "year" then monthlyData
  else
    let filtered :=
      filter (fun data => existsb (String.eqb (fst data))
                                  (monthsToInclude selectedPeriod now))
             monthlyData in
    array_sort byDate filtered.

End Dashboard.

(** The argument of [Math.round] in the Fulfillment Rate card:
    [(analytics.fulfilledOrders / analytics.totalOrders) * 100]. *)
Definition fulfillmentRatio (analytics : AnalyticsData float64) : float :=
  PrimFloat.mul
    (PrimFloat.div (float_of_Z (Z.of_nat (fulfilledOrders analytics)))
                   (float_of_Z (Z.of_nat (totalOrders analytics))))
    100%float.

(** A runtime that reads a label "Mon YYYY" of the current era as the
    number of its month, counted from year 0. *)
Definition sampleGetTime (label : string) : option Z :=
  match label with
  | String a (String b (String c (String " " year))) =>
      match NilEmpty.uint_of_string year with
      | Some y =>
          let name := String a (String b (String c "")) in
          match find (fun k => String.eqb (nth k monthNames "") name) (seq 0 12) with
          | Some k => Some (Z.of_N (N.of_uint y) * 12 + Z.of_nat k)%Z
          | None => None
          end
      | None => None
      end
  | _ => None
  end.

(** ** Sums of whole amounts

    [units] reads the amount of an order as a whole number.  The amounts of
    a sequence are whole when each is the number of its whole, and they add
    exactly when adding an amount to a whole number gives the number of the
    sum, as long as both stay within the sum of the absolute amounts. *)

Section WholeAmounts.

Context {N : JsNumber}.

Variable units : Order N -> Z.

Definition wholeAmounts (l : list (Order N)) : Prop :=
  forall o, In o l -> amount o = nofZ (units o).

Definition sumUnits (l : list (Order N)) : Z :=
  fold_right (fun o s => (units o + s)%Z) 0%Z l.

Definition sumAbs (l : list (Order N)) : Z :=
  fold_right (fun o s => (Z.abs (units o) + s)%Z) 0%Z l.

Definition addsExactly (l : list (Order N)) : Prop :=
  nzero = nofZ 0
  /\ forall z o, In o l ->
       (Z.abs z <= sumAbs l)%Z -> (Z.abs (z + units o) <= sumAbs l)%Z ->
       nadd (nofZ z) (nofZ (units o)) = nofZ (z + units o).

End WholeAmounts.

Section EntryCounts.

Context {N : JsNumber}.

(** What an entry of the product map and of the location map counts, the
    revenue left aside. *)
Definition productCounts (p : ProductStat N) : string * Z * nat :=
  (p_name p, p_quantity p, p_orders p).

Definition locationCounts (e : string * Stat N) : string * nat :=
  (fst e, orders (snd e)).

(** The label under which an order is counted, case by case: none without
    an address, Unknown without a city or with an empty one, else the city. *)
Definition shippedTo (location : string) (order : Order N) : bool :=
  match shippingAddress order with
  | None => false
  | Some None => String.eqb "Unknown" location
  | Some (Some city) =>
      if String.eqb city "" then String.eqb "Unknown" location
      else String.eqb city location
  end.

End EntryCounts.

(** The whole part of a binary64 number. *)
Definition wholeUnits (x : float) : Z :=
  match Prim2SF x with
  | S754_finite s m e =>
      let v := if (0 <=? e)%Z then (Zpos m * 2 ^ e)%Z else (Zpos m / 2 ^ (- e))%Z in
      if s then (- v)%Z else v
  | _ => 0%Z
  end.

Definition unitsOf (order : Order float64) : Z := wholeUnits (amount order).

(** The whole numbers from [- bound] to [bound]. *)
Definition wholesWithin (bound : Z) : list Z :=
  map (fun n => (Z.of_nat n - bound)%Z) (seq 0 (Z.to_nat (2 * bound + 1))).

(** Whether binary64 adds every amount of [l] exactly to every whole number
    within the sum of the absolute amounts. *)
Definition addsExactlyOn (l : list (Order float64)) : bool :=
  forallb
    (fun o =>
       forallb
         (fun z =>
            PrimFloat.Leibniz.eqb
              (PrimFloat.add (float_of_Z z) (float_of_Z (unitsOf o)))
              (float_of_Z (z + unitsOf o)))
         (wholesWithin (sumAbs unitsOf l)))
    l.

(** * Properties *)

(** ** The summary of the end-to-end scenario *)

Example scenario_summary :
  let r := processAnalyticsData scenario in
  totalOrders r = 3
  /\ totalRevenue r = 350%float
  /\ averageOrderValue r = PrimFloat.div 350 3
  /\ fulfilledOrders r = 2
  /\ paidOrders r = 2
  /\ map_get (monthlyData r) "Mar 2025" = Some {| orders := 2; revenue := 150%float |}
  /\ map_get (monthlyData r) "Apr 2025" = Some {| orders := 1; revenue := 200%float |}
  /\ map (fun e => (p_name e, p_quantity e)) (productData r)
     = [("Gadget", 4%Z); ("Widget", 3%Z)]
  /\ customerSegments r
     = {| newCustomers := 1; returningCustomers := 1; vipCustomers := 0 |}
  /\ map (fun e => (fst e, orders (snd e))) (locationData r)
     = [("Springfield", 2); ("Shelbyville", 1)].
Proof. vm_compute. repeat split. Qed.

Example segment_boundaries :
  customerSegments (processAnalyticsData boundaryOrders)
  = {| newCustomers := 1; returningCustomers := 1; vipCustomers := 1 |}.
Proof. vm_compute. reflexivity. Qed.

(** ** Facts on [Map] *)

Lemma hasKey_In (ks : list string) (k : string) :
  hasKey ks k = true <-> In k ks.
Proof.
  unfold hasKey. rewrite existsb_exists. split.
  - intros [x [Hin Heq]]. apply String.eqb_eq in Heq. now subst.
  - intros Hin. exists k. split; [assumption | apply String.eqb_refl].
Qed.

Lemma hasKey_false (ks : list string) (k : string) :
  hasKey ks k = false <-> ~ In k ks.
Proof.
  rewrite <- hasKey_In. destruct (hasKey ks k); split; congruence.
Qed.

Lemma map_get_set_same {V} (m : JsMap V) (k : string) (v : V) :
  map_get (map_set m k v) k = Some v.
Proof.
  induction m as [|[k' v'] r IH]; simpl.
  - now rewrite String.eqb_refl.
  - destruct (String.eqb k' k) eqn:E; simpl; rewrite E; auto.
Qed.

Lemma map_get_set_other {V} (m : JsMap V) (k k' : string) (v : V) :
  k <> k' -> map_get (map_set m k v) k' = map_get m k'.
Proof.
  intros Hne. induction m as [|[k0 v0] r IH]; simpl.
  - destruct (String.eqb k k') eqn:E; [apply String.eqb_eq in E; contradiction | reflexivity].
  - destruct (String.eqb k0 k) eqn:E; simpl.
    + apply String.eqb_eq in E. subst k0.
      destruct (String.eqb k k') eqn:E'; [apply String.eqb_eq in E'; contradiction | reflexivity].
    + now rewrite IH.
Qed.

Lemma map_get_None {V} (m : JsMap V) (k : string) :
  map_get m k = None <-> ~ In k (map_keys m).
Proof.
  induction m as [|[k' v'] r IH]; simpl.
  - tauto.
  - destruct (String.eqb k' k) eqn:E.
    + apply String.eqb_eq in E. split; [discriminate | intros H; exfalso; apply H; now left].
    + apply String.eqb_neq in E. rewrite IH. tauto.
Qed.

Lemma map_get_In {V} (m : JsMap V) (k : string) (v : V) :
  map_get m k = Some v -> In (k, v) m.
Proof.
  induction m as [|[k' v'] r IH]; simpl; [discriminate|].
  destruct (String.eqb k' k) eqn:E.
  - apply String.eqb_eq in E. intros [= ->]. left. now subst.
  - intros H. right. now apply IH.
Qed.

Lemma map_keys_set {V} (m : JsMap V) (k : string) (v : V) :
  map_keys (map_set m k v) = addKey (map_keys m) k.
Proof.
  unfold addKey, hasKey.
  induction m as [|[k' v'] r IH]; simpl; [reflexivity|].
  rewrite (String.eqb_sym k k').
  destruct (String.eqb k' k) eqn:E; simpl; [reflexivity|].
  rewrite IH. now destruct (existsb (String.eqb k) (map_keys r)).
Qed.

Lemma map_keys_updates {V} (d : string -> V) (ups : list (string * (V -> V))) :
  forall m, map_keys (apply_updates d m ups)
            = fold_left addKey (map fst ups) (map_keys m).
Proof.
  unfold apply_updates.
  induction ups as [|u ups IH]; intros m; simpl; [reflexivity|].
  rewrite IH. unfold map_update. now rewrite map_keys_set.
Qed.

Lemma map_get_updates {V} (d : string -> V) (k : string)
  (ups : list (string * (V -> V))) :
  forall m,
    map_get (apply_updates d m ups) k =
    match updatesFor k ups with
    | [] => map_get m k
    | _ :: _ => Some (apply_all (updatesFor k ups) (orElse (map_get m k) (d k)))
    end.
Proof.
  unfold apply_updates, updatesFor.
  induction ups as [|[k' f] ups IH]; intros m; simpl; [reflexivity|].
  rewrite IH. unfold map_update. simpl.
  destruct (String.eqb k' k) eqn:E; simpl.
  - apply String.eqb_eq in E. subst k'. rewrite map_get_set_same. simpl.
    now destruct (map snd (filter (fun u => String.eqb (fst u) k) ups)).
  - apply String.eqb_neq in E. now rewrite map_get_set_other.
Qed.

Lemma fold_addKey_extends (ks init : list string) :
  exists ext, fold_left addKey ks init = init ++ ext.
Proof.
  revert init. induction ks as [|k ks IH]; intros init; simpl.
  - exists []. now rewrite app_nil_r.
  - destruct (IH (addKey init k)) as [ext Hext]. rewrite Hext.
    unfold addKey. destruct (hasKey init k).
    + now exists ext.
    + exists (k :: ext). now rewrite <- app_assoc.
Qed.

Lemma fold_addKey_In (ks init : list string) (k : string) :
  In k (fold_left addKey ks init) <-> In k init \/ In k ks.
Proof.
  revert init. induction ks as [|k' ks IH]; intros init; simpl; [tauto|].
  rewrite IH. unfold addKey. destruct (hasKey init k') eqn:E.
  - apply hasKey_In in E. split; [tauto|]. intros [H|[H|H]]; auto. subst. auto.
  - rewrite in_app_iff. simpl. tauto.
Qed.

Lemma fold_addKey_NoDup (ks init : list string) :
  NoDup init -> NoDup (fold_left addKey ks init).
Proof.
  revert init. induction ks as [|k ks IH]; intros init Hnd; simpl; [assumption|].
  apply IH. unfold addKey. destruct (hasKey init k) eqn:E; [assumption|].
  apply hasKey_false in E.
  apply NoDup_app; [assumption | repeat constructor; easy | ].
  intros x Hx [<-|[]]. contradiction.
Qed.

Lemma firstSeen_In (ks : list string) (k : string) :
  In k (firstSeen ks) <-> In k ks.
Proof. unfold firstSeen. rewrite fold_addKey_In. simpl. tauto. Qed.

Lemma firstSeen_NoDup (ks : list string) : NoDup (firstSeen ks).
Proof. apply fold_addKey_NoDup. constructor. Qed.

(** ** The loop of [processAnalyticsData], one accumulator at a time *)

Section LoopFacts.

Context {N : JsNumber}.

Implicit Types (order : Order N) (orders : list (Order N)) (a : Acc N).

Lemma apply_updates_app {V} (d : string -> V) (m : JsMap V)
  (u1 u2 : list (string * (V -> V))) :
  apply_updates d m (u1 ++ u2) = apply_updates d (apply_updates d m u1) u2.
Proof. unfold apply_updates. apply fold_left_app. Qed.

Lemma steps_as_updates {V} (d : string -> V) (step : JsMap V -> Order N -> JsMap V)
  (upd : Order N -> list (string * (V -> V))) :
  (forall m order, step m order = apply_updates d m (upd order)) ->
  forall orders m,
    fold_left step orders m = apply_updates d m (flat_map upd orders).
Proof.
  intros Hstep orders. induction orders as [|o os IH]; intros m; simpl.
  - reflexivity.
  - now rewrite IH, Hstep, apply_updates_app.
Qed.

Lemma monthlyStep_updates (m : JsMap (Stat N)) order :
  monthlyStep m order = apply_updates (fun _ => zeroStat) m (monthlyUpdates order).
Proof. unfold monthlyStep, monthlyUpdates. now destruct (processedAt order). Qed.

Lemma customerStep_updates (m : JsMap nat) order :
  customerStep m order = apply_updates (fun _ => 0) m (customerUpdates order).
Proof. unfold customerStep, customerUpdates. now destruct (customer order). Qed.

Lemma locationStep_updates (m : JsMap (Stat N)) order :
  locationStep m order = apply_updates (fun _ => zeroStat) m (locationUpdates order).
Proof. unfold locationStep, locationUpdates. now destruct (shippingAddress order). Qed.

Lemma itemStep_updates (m : JsMap (ProductStat N)) (item : LineItem N) :
  itemStep m item = apply_updates newProductStat m (itemUpdates item).
Proof. unfold itemStep, itemUpdates. now destruct (product item). Qed.

Lemma productStep_updates (m : JsMap (ProductStat N)) order :
  productStep m order = apply_updates newProductStat m (productUpdates order).
Proof.
  unfold productStep, productUpdates.
  generalize (lineItems order) as items. intros items. revert m.
  induction items as [|i items IH]; intros m; simpl; [reflexivity|].
  now rewrite IH, itemStep_updates, apply_updates_app.
Qed.

Lemma fold_orderStep_monthly orders : forall a,
  acc_monthlyStats (fold_left orderStep orders a)
  = fold_left monthlyStep orders (acc_monthlyStats a).
Proof. induction orders as [|o os IH]; intros a; simpl; [reflexivity | now rewrite IH]. Qed.

Lemma fold_orderStep_product orders : forall a,
  acc_productStats (fold_left orderStep orders a)
  = fold_left productStep orders (acc_productStats a).
Proof. induction orders as [|o os IH]; intros a; simpl; [reflexivity | now rewrite IH]. Qed.

Lemma fold_orderStep_customer orders : forall a,
  acc_customerOrders (fold_left orderStep orders a)
  = fold_left customerStep orders (acc_customerOrders a).
Proof. induction orders as [|o os IH]; intros a; simpl; [reflexivity | now rewrite IH]. Qed.

Lemma fold_orderStep_location orders : forall a,
  acc_locationStats (fold_left orderStep orders a)
  = fold_left locationStep orders (acc_locationStats a).
Proof. induction orders as [|o os IH]; intros a; simpl; [reflexivity | now rewrite IH]. Qed.

Lemma fold_orderStep_revenue orders : forall a,
  acc_totalRevenue (fold_left orderStep orders a)
  = fold_left nadd (map (@amount N) orders) (acc_totalRevenue a).
Proof. induction orders as [|o os IH]; intros a; simpl; [reflexivity | now rewrite IH]. Qed.

Lemma fold_orderStep_fulfilled orders : forall a,
  acc_fulfilledCount (fold_left orderStep orders a)
  = acc_fulfilledCount a
    + List.length (filter (fun o => String.eqb (displayFulfillmentStatus o) "FULFILLED") orders).
Proof.
  induction orders as [|o os IH]; intros a; simpl; [lia|].
  rewrite IH. simpl.
  destruct (String.eqb (displayFulfillmentStatus o) "FULFILLED"); simpl; lia.
Qed.

Lemma fold_orderStep_paid orders : forall a,
  acc_paidCount (fold_left orderStep orders a)
  = acc_paidCount a
    + List.length (filter (fun o => String.eqb (displayFinancialStatus o) "PAID") orders).
Proof.
  induction orders as [|o os IH]; intros a; simpl; [lia|].
  rewrite IH. simpl.
  destruct (String.eqb (displayFinancialStatus o) "PAID"); simpl; lia.
Qed.

Lemma monthlyStats_final orders :
  acc_monthlyStats (finalAcc orders)
  = apply_updates (fun _ => zeroStat) initMonthlyStats (flat_map monthlyUpdates orders).
Proof.
  unfold finalAcc. rewrite fold_orderStep_monthly.
  apply steps_as_updates, monthlyStep_updates.
Qed.

Lemma customerOrders_final orders :
  acc_customerOrders (finalAcc orders)
  = apply_updates (fun _ => 0) [] (flat_map customerUpdates orders).
Proof.
  unfold finalAcc. rewrite fold_orderStep_customer.
  apply steps_as_updates, customerStep_updates.
Qed.

Lemma productStats_final orders :
  acc_productStats (finalAcc orders)
  = apply_updates newProductStat [] (flat_map productUpdates orders).
Proof.
  unfold finalAcc. rewrite fold_orderStep_product.
  apply steps_as_updates, productStep_updates.
Qed.

Lemma locationStats_final orders :
  acc_locationStats (finalAcc orders)
  = apply_updates (fun _ => zeroStat) [] (flat_map locationUpdates orders).
Proof.
  unfold finalAcc. rewrite fold_orderStep_location.
  apply steps_as_updates, locationStep_updates.
Qed.

End LoopFacts.

(** ** Line items whose product is absent *)

Section AbsentProductFacts.

Context {N : JsNumber}.

Lemma itemStep_absent (m : JsMap (ProductStat N)) (item : LineItem N) :
  product item = None -> itemStep m item = m.
Proof. unfold itemStep. now intros ->. Qed.

Lemma fold_itemStep_filter (items : list (LineItem N)) :
  forall m, fold_left itemStep (filter hasProduct items) m
            = fold_left itemStep items m.
Proof.
  induction items as [|i items IH]; intros m; simpl; [reflexivity|].
  unfold hasProduct at 1. destruct (product i) eqn:E; simpl.
  - apply IH.
  - rewrite IH. now rewrite (itemStep_absent m i E).
Qed.

Lemma orderStep_dropAbsent (a : Acc N) (order : Order N) :
  orderStep a (dropAbsentProducts order) = orderStep a order.
Proof.
  unfold orderStep, productStep. simpl.
  now rewrite fold_itemStep_filter.
Qed.

Lemma finalAcc_dropAbsent (orders : list (Order N)) :
  finalAcc (map dropAbsentProducts orders) = finalAcc orders.
Proof.
  unfold finalAcc. generalize (@initAcc N) as a.
  induction orders as [|o os IH]; intros a; simpl; [reflexivity|].
  now rewrite orderStep_dropAbsent, IH.
Qed.

End AbsentProductFacts.

(** ** The empty order sequence *)

(** C6. For the empty order sequence the summary has [averageOrderValue]
    equal to the number 0 (so neither NaN nor an infinity), [totalOrders] 0
    and [totalRevenue] 0; and for every sequence the quotient is taken only
    when there is at least one order, the divisor being their count. *)
Theorem empty_orders_zero_summary :
  averageOrderValue (@processAnalyticsData float64 []) = 0%float
  /\ totalOrders (@processAnalyticsData float64 []) = 0
  /\ totalRevenue (@processAnalyticsData float64 []) = 0%float
  /\ forall orders : list (Order float64),
       averageOrderValue (processAnalyticsData orders) =
       match orders with
       | [] => 0%float
       | _ :: _ =>
           PrimFloat.div (totalRevenue (processAnalyticsData orders))
                         (float_of_Z (Z.of_nat (List.length orders)))
       end.
Proof.
  repeat split.
  intros [|o os]; reflexivity.
Qed.

(** ** The twelve months *)

Section MonthFacts.

Context {N : JsNumber}.

Lemma initMonthlyStats_eq :
  @initMonthlyStats N = map (fun month => (month, zeroStat)) months2025.
Proof. reflexivity. Qed.

Lemma monthlyData_keys (orders : list (Order N)) :
  map_keys (monthlyData (processAnalyticsData orders))
  = fold_left addKey (map fst (flat_map monthlyUpdates orders)) months2025.
Proof.
  unfold processAnalyticsData. simpl. fold (finalAcc orders).
  now rewrite monthlyStats_final, map_keys_updates.
Qed.

Lemma monthlyData_get (orders : list (Order N)) (month : string) :
  map_get (monthlyData (processAnalyticsData orders)) month
  = match updatesFor month (flat_map monthlyUpdates orders) with
    | [] => map_get initMonthlyStats month
    | _ :: _ =>
        Some (apply_all (updatesFor month (flat_map monthlyUpdates orders))
                        (orElse (map_get initMonthlyStats month) zeroStat))
    end.
Proof.
  unfold processAnalyticsData. simpl. fold (finalAcc orders).
  now rewrite monthlyStats_final, map_get_updates.
Qed.

Lemma initMonthlyStats_get (month : string) :
  In month months2025 -> map_get (@initMonthlyStats N) month = Some zeroStat.
Proof.
  intros H. simpl in H.
  repeat (destruct H as [<-|H]; [reflexivity|]). contradiction.
Qed.

Lemma updatesFor_none {V} (k : string) (ups : list (string * (V -> V))) :
  ~ In k (map fst ups) -> updatesFor k ups = [].
Proof.
  unfold updatesFor. induction ups as [|[k' f] ups IH]; simpl; [reflexivity|].
  intros H. destruct (String.eqb k' k) eqn:E.
  - apply String.eqb_eq in E. exfalso. apply H. now left.
  - apply IH. tauto.
Qed.

Lemma monthly_keys_In (orders : list (Order N)) (month : string) :
  In month (map fst (flat_map monthlyUpdates orders)) <->
  exists o d, In o orders /\ processedAt o = Some d /\ toLocaleDateString d = month.
Proof.
  rewrite in_map_iff. split.
  - intros [[k f] [Hk Hin]]. simpl in Hk. subst k.
    apply in_flat_map in Hin. destruct Hin as [o [Ho Hu]].
    unfold monthlyUpdates in Hu. destruct (processedAt o) as [d|] eqn:E; [|contradiction].
    destruct Hu as [Hu|[]]. inversion Hu. now exists o, d.
  - intros [o [d [Ho [Hd Hm]]]]. exists (month, bumpStat (amount o)). split; [reflexivity|].
    apply in_flat_map. exists o. split; [assumption|].
    unfold monthlyUpdates. rewrite Hd, Hm. now left.
Qed.

(** The twelve months come first, whatever is appended after them. *)
Lemma monthlyData_first_twelve (l : list (Order N)) :
  firstn 12 (map_keys (monthlyData (processAnalyticsData l))) = months2025.
Proof.
  rewrite monthlyData_keys.
  destruct (fold_addKey_extends (map fst (flat_map monthlyUpdates l)) months2025)
    as [ext ->].
  change 12 with (List.length months2025 + 0).
  rewrite firstn_app_2. simpl. reflexivity.
Qed.

(** C5. Whatever the orders, the monthly collection starts with the twelve
    months of 2025 in calendar order; they are set to zero orders and zero
    revenue before the first order is read; a month of 2025 that no order
    falls in is still there with both at zero; and for the empty sequence the
    collection is exactly the twelve zero entries. *)
Theorem monthly_zero_fill (orders : list (Order N)) :
  firstn 12 (map_keys (monthlyData (processAnalyticsData orders))) = months2025
  /\ acc_monthlyStats (@initAcc N) = map (fun month => (month, zeroStat)) months2025
  /\ (forall month, In month months2025 ->
        (forall o d, In o orders -> processedAt o = Some d ->
                     toLocaleDateString d <> month) ->
        map_get (monthlyData (processAnalyticsData orders)) month = Some zeroStat)
  /\ (forall month, In month months2025 ->
        exists data, map_get (monthlyData (processAnalyticsData orders)) month = Some data)
  /\ monthlyData (@processAnalyticsData N [])
     = map (fun month => (month, zeroStat)) months2025.
Proof.
  split; [|split; [|split; [|split]]].
  - apply monthlyData_first_twelve.
  - reflexivity.
  - intros month Hin Hno. rewrite monthlyData_get.
    rewrite updatesFor_none.
    + now apply initMonthlyStats_get.
    + intros H. apply monthly_keys_In in H. destruct H as [o [d [Ho [Hd Hm]]]].
      exact (Hno o d Ho Hd Hm).
  - intros month Hin. rewrite monthlyData_get.
    destruct (updatesFor month (flat_map monthlyUpdates orders)); eauto.
    rewrite initMonthlyStats_get by assumption. eauto.
  - reflexivity.
Qed.

End MonthFacts.

Lemma monthly_zero_fill_witness :
  map_get (monthlyData (processAnalyticsData marchAndNovember)) "Jan 2025"
  = Some zeroStat.
Proof.
  destruct (monthly_zero_fill marchAndNovember) as (_ & _ & Hzero & _).
  apply Hzero.
  - simpl. auto.
  - intros o d [<-|[<-|[]]] [= <-]; discriminate.
Defined.

(** ** Orders outside the target year *)

Lemma decimal_inj (p q : positive) : decimal p = decimal q -> p = q.
Proof.
  unfold decimal. intros H.
  apply (f_equal NilEmpty.uint_of_string) in H.
  rewrite !NilEmpty.usu in H. injection H as H.
  apply (f_equal Pos.of_uint) in H.
  rewrite !DecimalPos.Unsigned.of_to in H. now injection H.
Qed.

Lemma label_in_2025 (y : positive) (m : Month) :
  In (toLocaleDateString (LocalDate y m)) months2025 -> y = 2025%positive.
Proof.
  intros H. apply decimal_inj. change (decimal 2025) with "2025".
  destruct m; simpl in H;
    repeat (destruct H as [H|H]; [try discriminate H; now inversion H|]);
    contradiction.
Qed.

Section OutOfYearFacts.

Context {N : JsNumber}.

Lemma bump_all (l : list (Order N)) : forall s : Stat N,
  apply_all (map (fun o => bumpStat (amount o)) l) s
  = {| orders := orders s + List.length l;
       revenue := fold_left nadd (map (@amount N) l) (revenue s) |}.
Proof.
  unfold apply_all.
  induction l as [|o os IH]; intros s; simpl.
  - destruct s. simpl. f_equal. lia.
  - rewrite IH. simpl. f_equal. lia.
Qed.

Lemma monthly_updatesFor (month : string) (orders : list (Order N)) :
  updatesFor month (flat_map monthlyUpdates orders)
  = map (fun o => bumpStat (amount o)) (filter (inMonth month) orders).
Proof.
  unfold updatesFor.
  induction orders as [|o os IH]; simpl; [reflexivity|].
  rewrite filter_app, map_app, IH.
  unfold monthlyUpdates, inMonth.
  destruct (processedAt o) as [d|]; simpl; [|reflexivity].
  now destruct (String.eqb (toLocaleDateString d) month).
Qed.

Lemma initMonthlyStats_lookup (month : string) :
  map_get (@initMonthlyStats N) month
  = if hasKey months2025 month then Some zeroStat else None.
Proof.
  destruct (hasKey months2025 month) eqn:Hk.
  - apply hasKey_In in Hk. now apply initMonthlyStats_get.
  - apply hasKey_false in Hk. apply map_get_None.
    now rewrite initMonthlyStats_eq; unfold map_keys; rewrite map_map, map_id.
Qed.

Lemma existsb_filter_length {A} (p : A -> bool) (l : list A) :
  existsb p l = negb (Nat.eqb (List.length (filter p l)) 0).
Proof.
  induction l as [|x l IH]; simpl; [reflexivity|].
  destruct (p x); simpl; [reflexivity | exact IH].
Qed.

(** The lookup of a month in the monthly collection, in closed form. *)
Lemma monthlyData_lookup (l : list (Order N)) (month : string) :
  map_get (monthlyData (processAnalyticsData l)) month
  = if hasKey months2025 month || existsb (inMonth month) l
    then Some (monthStat month l) else None.
Proof.
  rewrite monthlyData_get, monthly_updatesFor, initMonthlyStats_lookup.
  rewrite existsb_filter_length. unfold monthStat.
  destruct (filter (inMonth month) l) as [|o os].
  - cbn [map List.length Nat.eqb negb]. rewrite orb_false_r.
    now destruct (hasKey months2025 month).
  - cbn [List.length Nat.eqb negb]. rewrite orb_true_r.
    replace (orElse (if hasKey months2025 month then Some zeroStat else None) zeroStat)
      with (@zeroStat N) by now destruct (hasKey months2025 month).
    rewrite bump_all. reflexivity.
Qed.

(** C3, as the code has it. An order processed in a year other than 2025 is
    not clipped into a month of 2025: every one of the twelve entries is what
    it is without that order.  It is not dropped either: it is counted under
    an entry of its own, labelled with its month and year, which is none of
    the twelve (and so comes after them). *)
Theorem out_of_year_order_gets_own_month
  (before after : list (Order N)) (order : Order N) (y : positive) (m : Month) :
  processedAt order = Some (LocalDate y m) ->
  y <> 2025%positive ->
  let label := toLocaleDateString (LocalDate y m) in
  let monthly := monthlyData (processAnalyticsData (before ++ order :: after)) in
  ~ In label months2025
  /\ (forall month, In month months2025 ->
        map_get monthly month
        = map_get (monthlyData (processAnalyticsData (before ++ after))) month)
  /\ map_get monthly label = Some (monthStat label (before ++ order :: after))
  /\ 1 <= orders (monthStat label (before ++ order :: after))
  /\ firstn 12 (map_keys monthly) = months2025.
Proof.
  intros Hd Hy label monthly.
  assert (Hout : ~ In label months2025).
  { intros H. apply Hy. now apply (label_in_2025 y m). }
  assert (Hin : inMonth label order = true).
  { unfold inMonth. rewrite Hd. apply String.eqb_refl. }
  split; [exact Hout|]. split; [|split; [|split]].
  - intros month Hm. unfold monthly. rewrite !monthlyData_lookup.
    assert (Hk : hasKey months2025 month = true) by now apply hasKey_In.
    rewrite Hk. simpl. f_equal. unfold monthStat.
    rewrite !filter_app. simpl.
    assert (Hno : inMonth month order = false).
    { unfold inMonth. rewrite Hd. apply String.eqb_neq.
      intros Heq. apply Hout. unfold label. now rewrite Heq. }
    now rewrite Hno.
  - unfold monthly. rewrite monthlyData_lookup.
    rewrite existsb_app. simpl. rewrite Hin.
    now rewrite orb_true_r, orb_true_r.
  - unfold monthStat, statOf. simpl. rewrite filter_app. simpl. rewrite Hin.
    rewrite length_app. simpl. lia.
  - apply monthlyData_first_twelve.
Qed.

End OutOfYearFacts.

(** C3, as stated, fails: an order processed in December 2024 is recorded
    under a thirteenth entry, so the collection is not what it is without the
    order. *)
Lemma out_of_year_order_is_recorded :
  processedAt orderDec2024 = Some (LocalDate 2024 Dec)
  /\ monthlyData (processAnalyticsData [orderDec2024])
     = monthlyData (@processAnalyticsData float64 [])
       ++ [("Dec 2024", {| orders := 1; revenue := 200%float |})]
  /\ monthlyData (processAnalyticsData [orderDec2024])
     <> monthlyData (@processAnalyticsData float64 []).
Proof.
  split; [reflexivity|]. split; [reflexivity|].
  intros H. apply (f_equal (@List.length _)) in H. discriminate H.
Qed.

Lemma out_of_year_order_gets_own_month_witness :
  map_get (monthlyData (processAnalyticsData [orderDec2024])) "Dec 2024"
  = Some (monthStat "Dec 2024" [orderDec2024]).
Proof.
  apply (@out_of_year_order_gets_own_month float64 [] [] orderDec2024 2024 Dec);
    [reflexivity | discriminate].
Defined.

(** ** Customer segments *)

Lemma map_as_table {V} (v : string -> V) (m : JsMap V) :
  NoDup (map_keys m) ->
  (forall k, In k (map_keys m) -> map_get m k = Some (v k)) ->
  m = map (fun k => (k, v k)) (map_keys m).
Proof.
  induction m as [|[k0 v0] r IH]; simpl; intros Hnd Hget; [reflexivity|].
  inversion Hnd as [|? ? Hnotin Hnd']; subst.
  assert (H0 := Hget k0 (or_introl eq_refl)).
  rewrite String.eqb_refl in H0. injection H0 as ->.
  f_equal. apply IH; [assumption|].
  intros k Hk. specialize (Hget k (or_intror Hk)).
  destruct (String.eqb k0 k) eqn:E; [|assumption].
  apply String.eqb_eq in E. subst k. contradiction.
Qed.

Lemma segmentStep_fold (counts : list nat) : forall s,
  fold_left segmentStep counts s
  = {| newCustomers :=
         newCustomers s + List.length (filter (fun n => Nat.eqb n 1) counts);
       returningCustomers :=
         returningCustomers s
         + List.length (filter (fun n => negb (Nat.eqb n 1) && negb (Nat.leb 5 n)) counts);
       vipCustomers :=
         vipCustomers s + List.length (filter (fun n => Nat.leb 5 n) counts) |}.
Proof.
  induction counts as [|n counts IH]; intros s.
  - destruct s; simpl. f_equal; lia.
  - cbn [fold_left filter]. rewrite IH. unfold segmentStep.
    destruct (Nat.eqb n 1) eqn:E1.
    + apply Nat.eqb_eq in E1. subst n.
      cbn [Nat.leb negb andb List.length newCustomers returningCustomers vipCustomers].
      f_equal; lia.
    + destruct (Nat.leb 5 n) eqn:E5;
        cbn [negb andb List.length newCustomers returningCustomers vipCustomers];
        f_equal; lia.
Qed.

Lemma filter_map_length {A B} (f : A -> B) (p : B -> bool) (l : list A) :
  List.length (filter p (map f l)) = List.length (filter (fun x => p (f x)) l).
Proof.
  induction l as [|x l IH]; simpl; [reflexivity|].
  destruct (p (f x)); simpl; now rewrite IH.
Qed.

Lemma filter_partition3_length {A} (p q r : A -> bool) (l : list A) :
  (forall x, In x l ->
     (p x = true /\ q x = false /\ r x = false)
     \/ (p x = false /\ q x = true /\ r x = false)
     \/ (p x = false /\ q x = false /\ r x = true)) ->
  List.length (filter p l) + List.length (filter q l) + List.length (filter r l)
  = List.length l.
Proof.
  induction l as [|x l IH]; intros H; simpl; [reflexivity|].
  assert (IH' := IH (fun y Hy => H y (or_intror Hy))).
  destruct (H x (or_introl eq_refl)) as [(-> & -> & ->)|[(-> & -> & ->)|(-> & -> & ->)]];
    simpl; lia.
Qed.

Section SegmentFacts.

Context {N : JsNumber}.

Lemma customer_keys (l : list (Order N)) :
  map fst (flat_map customerUpdates l) = customerIds l.
Proof.
  unfold customerIds. induction l as [|o os IH]; simpl; [reflexivity|].
  rewrite map_app, IH. unfold customerUpdates. now destruct (customer o).
Qed.

Lemma customer_updatesFor (c : string) (l : list (Order N)) :
  updatesFor c (flat_map customerUpdates l)
  = map (fun _ => fun orderCount => orderCount + 1) (filter (isCustomer c) l).
Proof.
  unfold updatesFor. induction l as [|o os IH]; simpl; [reflexivity|].
  rewrite filter_app, map_app, IH. unfold customerUpdates, isCustomer.
  destruct (customer o) as [c'|]; simpl; [|reflexivity].
  now destruct (String.eqb c' c).
Qed.

Lemma count_all (l : list (Order N)) : forall n,
  apply_all (map (fun _ : Order N => fun orderCount => orderCount + 1) l) n
  = n + List.length l.
Proof.
  unfold apply_all. induction l as [|o os IH]; intros n; simpl; [lia|].
  rewrite IH. lia.
Qed.

Lemma customersOf_In (l : list (Order N)) (c : string) :
  In c (customersOf l) <-> 1 <= orderCountOf c l.
Proof.
  unfold customersOf, orderCountOf. rewrite firstSeen_In. unfold customerIds.
  induction l as [|o os IH]; simpl; [lia|].
  rewrite in_app_iff, IH. unfold isCustomer at 2.
  destruct (customer o) as [c'|]; simpl.
  - destruct (String.eqb c' c) eqn:E; simpl.
    + apply String.eqb_eq in E. subst. split; [lia | auto].
    + apply String.eqb_neq in E. tauto.
  - tauto.
Qed.

(** The [customerOrders] map at the end of the loop: one entry per distinct
    customer, in first-seen order, holding the number of its orders. *)
Lemma customerOrders_table (l : list (Order N)) :
  acc_customerOrders (finalAcc l)
  = map (fun c => (c, orderCountOf c l)) (customersOf l).
Proof.
  assert (Hk : map_keys (acc_customerOrders (finalAcc l)) = customersOf l).
  { rewrite customerOrders_final, map_keys_updates, customer_keys. reflexivity. }
  rewrite <- Hk. apply map_as_table.
  - rewrite Hk. apply firstSeen_NoDup.
  - intros c Hc. rewrite Hk in Hc. apply customersOf_In in Hc.
    rewrite customerOrders_final, map_get_updates, customer_updatesFor.
    unfold orderCountOf in *.
    destruct (filter (isCustomer c) l) as [|o os] eqn:E; [simpl in Hc; lia|].
    change (map (fun _ : Order N => fun orderCount => orderCount + 1) (o :: os))
      with ((fun orderCount => orderCount + 1)
              :: map (fun _ : Order N => fun orderCount => orderCount + 1) os).
    cbv iota.
    change ((fun orderCount => orderCount + 1)
              :: map (fun _ : Order N => fun orderCount => orderCount + 1) os)
      with (map (fun _ : Order N => fun orderCount => orderCount + 1) (o :: os)).
    rewrite count_all. reflexivity.
Qed.

Lemma customerOrders_skip (before after : list (Order N)) (o : Order N) :
  customer o = None ->
  acc_customerOrders (finalAcc (before ++ o :: after))
  = acc_customerOrders (finalAcc (before ++ after)).
Proof.
  intros H. rewrite !customerOrders_final, !flat_map_app. simpl.
  unfold customerUpdates at 2. now rewrite H.
Qed.

(** The segment counters in closed form. *)
Lemma segments_closed_form (l : list (Order N)) :
  customerSegments (processAnalyticsData l)
  = {| newCustomers :=
         List.length (filter (fun c => Nat.eqb (orderCountOf c l) 1) (customersOf l));
       returningCustomers :=
         List.length
           (filter (fun c => negb (Nat.eqb (orderCountOf c l) 1)
                             && negb (Nat.leb 5 (orderCountOf c l)))
                   (customersOf l));
       vipCustomers :=
         List.length (filter (fun c => Nat.leb 5 (orderCountOf c l)) (customersOf l)) |}.
Proof.
  unfold processAnalyticsData. simpl. fold (finalAcc l).
  rewrite customerOrders_table. unfold segmentsOf, map_values.
  rewrite map_map. cbn [snd].
  rewrite segmentStep_fold, !filter_map_length. reflexivity.
Qed.

(** C7. The three segment counters count the distinct customers by the
    number of orders each has in the whole sequence: exactly 1 is new, 2 to 4
    is returning, 5 or more is vip.  Every customer falls in exactly one of the
    three, so the counters add up to the number of distinct customers; the
    customers are the ids that occur on some order; and an order without a
    customer changes no counter. *)
Theorem customer_segments_by_final_count (l : list (Order N)) :
  let seg := customerSegments (processAnalyticsData l) in
  let count := fun c => orderCountOf c l in
  newCustomers seg
  = List.length (filter (fun c => Nat.eqb (count c) 1) (customersOf l))
  /\ returningCustomers seg
     = List.length (filter (fun c => Nat.leb 2 (count c) && Nat.leb (count c) 4)
                           (customersOf l))
  /\ vipCustomers seg
     = List.length (filter (fun c => Nat.leb 5 (count c)) (customersOf l))
  /\ newCustomers seg + returningCustomers seg + vipCustomers seg
     = List.length (customersOf l)
  /\ NoDup (customersOf l)
  /\ (forall c, In c (customersOf l) <-> 1 <= count c)
  /\ (forall before o after,
        l = before ++ o :: after -> customer o = None ->
        customerSegments (processAnalyticsData (before ++ after)) = seg).
Proof.
  intros seg count.
  assert (Hseg := segments_closed_form l). fold seg in Hseg.
  change (fun c => orderCountOf c l) with count in Hseg.
  repeat change (orderCountOf ?c l) with (count c) in Hseg.
  assert (Hret : filter (fun c => negb (Nat.eqb (count c) 1) && negb (Nat.leb 5 (count c)))
                        (customersOf l)
                 = filter (fun c => Nat.leb 2 (count c) && Nat.leb (count c) 4)
                          (customersOf l)).
  { apply filter_ext_in. intros c Hc. apply customersOf_In in Hc.
    fold (count c) in Hc.
    destruct (Nat.eqb_spec (count c) 1), (Nat.leb_spec 5 (count c)),
             (Nat.leb_spec 2 (count c)), (Nat.leb_spec (count c) 4);
      simpl; try reflexivity; lia. }
  rewrite Hret in Hseg.
  assert (Hskip : forall before o after,
             l = before ++ o :: after -> customer o = None ->
             customerSegments (processAnalyticsData (before ++ after)) = seg).
  { intros before o after Hl Hc. unfold seg. rewrite Hl.
    unfold processAnalyticsData. simpl.
    fold (finalAcc (before ++ after)). fold (finalAcc (before ++ o :: after)).
    now rewrite customerOrders_skip. }
  revert Hskip. rewrite Hseg.
  cbn [newCustomers returningCustomers vipCustomers noSegments Nat.add].
  intros Hskip.
  split; [reflexivity|]. split; [reflexivity|]. split; [reflexivity|].
  split; [|split; [|split]].
  - apply filter_partition3_length. intros c Hc. apply customersOf_In in Hc.
    fold (count c) in Hc. cbv beta.
    destruct (Nat.eqb_spec (count c) 1), (Nat.leb_spec 5 (count c)),
             (Nat.leb_spec 2 (count c)), (Nat.leb_spec (count c) 4);
      simpl; try lia; auto 10.
  - apply firstSeen_NoDup.
  - intros c. apply customersOf_In.
  - exact Hskip.
Qed.

End SegmentFacts.

Lemma customer_segments_by_final_count_witness :
  customerSegments (processAnalyticsData ([orderBy "a"] ++ ordersOfThree))
  = customerSegments (processAnalyticsData boundaryOrders).
Proof.
  destruct (customer_segments_by_final_count boundaryOrders)
    as (_ & _ & _ & _ & _ & _ & Hguest).
  apply (Hguest [orderBy "a"] guestOrder ordersOfThree); reflexivity.
Defined.

(** ** The order of the input *)

Lemma filter_perm {A} (p : A -> bool) (l l' : list A) :
  Permutation l l' -> Permutation (filter p l) (filter p l').
Proof.
  induction 1 as [|x l l' _ IH|x y l|l l' l'' _ IH1 _ IH2]; simpl.
  - constructor.
  - destruct (p x); [now constructor | assumption].
  - destruct (p x), (p y); try reflexivity. apply perm_swap.
  - now transitivity (filter p l').
Qed.

Lemma filter_length_perm {A} (p : A -> bool) (l l' : list A) :
  Permutation l l' -> List.length (filter p l) = List.length (filter p l').
Proof. intros H. apply Permutation_length. now apply filter_perm. Qed.

Lemma filter_length_ext {A} (p q : A -> bool) (l : list A) :
  (forall x, In x l -> p x = q x) ->
  List.length (filter p l) = List.length (filter q l).
Proof. intros H. f_equal. now apply filter_ext_in. Qed.

Section PermutationFacts.

Context {N : JsNumber}.


Lemma orderCountOf_perm (c : string) (l l' : list (Order N)) :
  Permutation l l' -> orderCountOf c l = orderCountOf c l'.
Proof. apply filter_length_perm. Qed.

Lemma customersOf_perm (l l' : list (Order N)) :
  Permutation l l' -> Permutation (customersOf l) (customersOf l').
Proof.
  intros H. apply NoDup_Permutation; try apply firstSeen_NoDup.
  intros c. rewrite !customersOf_In. now rewrite (orderCountOf_perm c H).
Qed.

Lemma segments_perm (l l' : list (Order N)) :
  Permutation l l' ->
  customerSegments (processAnalyticsData l)
  = customerSegments (processAnalyticsData l').
Proof.
  intros H. rewrite !segments_closed_form.
  f_equal.
  - rewrite (filter_length_perm _ (customersOf_perm H)).
    apply filter_length_ext. intros c _. now rewrite (orderCountOf_perm c H).
  - rewrite (filter_length_perm _ (customersOf_perm H)).
    apply filter_length_ext. intros c _. now rewrite (orderCountOf_perm c H).
  - rewrite (filter_length_perm _ (customersOf_perm H)).
    apply filter_length_ext. intros c _. now rewrite (orderCountOf_perm c H).
Qed.

Lemma existsb_perm {A} (p : A -> bool) (l l' : list A) :
  Permutation l l' -> existsb p l = existsb p l'.
Proof.
  intros H. rewrite !existsb_filter_length. now rewrite (filter_length_perm p H).
Qed.

End PermutationFacts.

(** C8, as stated, fails on the revenue: three orders of 0.10, 0.20 and 0.30
    add up to 0.6000000000000001, and in the reverse order to 0.6. *)
Lemma total_revenue_depends_on_input_order :
  Permutation tenths tenthsReversed
  /\ totalRevenue (processAnalyticsData tenths) = 0x1.3333333333334p-1%float
  /\ totalRevenue (processAnalyticsData tenthsReversed) = 0x1.3333333333333p-1%float
  /\ totalRevenue (processAnalyticsData tenths)
     <> totalRevenue (processAnalyticsData tenthsReversed).
Proof.
  split; [|split; [|split]].
  - exact (Permutation_rev tenths).
  - vm_compute. reflexivity.
  - vm_compute. reflexivity.
  - intros H.
    apply (f_equal (fun x : float => PrimFloat.eqb x 0x1.3333333333333p-1%float)) in H.
    vm_compute in H. discriminate H.
Qed.


(** ** Sorting and truncation *)

Section SortFacts.

Variable A : Type.
Variable key : A -> Z.
Variable cmp : A -> A -> Z.
Hypothesis cmp_key : forall a b, cmp a b = (key b - key a)%Z.

Lemma sort_insert_perm (x : A) (l : list A) :
  Permutation (sort_insert cmp x l) (x :: l).
Proof.
  induction l as [|y r IH]; simpl; [reflexivity|].
  destruct (0 <? cmp x y)%Z; [|reflexivity].
  transitivity (y :: x :: r); [now constructor | apply perm_swap].
Qed.

Lemma array_sort_perm (l : list A) : Permutation (array_sort cmp l) l.
Proof.
  induction l as [|x r IH]; simpl; [reflexivity|].
  transitivity (x :: array_sort cmp r); [apply sort_insert_perm | now constructor].
Qed.

Lemma sort_insert_sorted (x : A) (l : list A) :
  StronglySorted (descending key) l -> StronglySorted (descending key) (sort_insert cmp x l).
Proof.
  induction 1 as [|y r Hs IH Hall]; simpl.
  - repeat constructor.
  - rewrite cmp_key. destruct (Z.ltb_spec 0 (key y - key x)) as [Hlt|Hge].
    + constructor; [exact IH|].
      apply (Permutation_Forall (Permutation_sym (sort_insert_perm x r))).
      constructor; [unfold descending; lia | exact Hall].
    + constructor; [now constructor|].
      constructor; [unfold descending; lia|].
      eapply Forall_impl; [|exact Hall]. unfold descending. intros z Hz. lia.
Qed.

Lemma array_sort_sorted (l : list A) : StronglySorted (descending key) (array_sort cmp l).
Proof.
  induction l as [|x r IH]; simpl; [constructor | now apply sort_insert_sorted].
Qed.

(** Stability: the entries of one key keep their order. *)
Lemma sort_insert_stable (q : Z) (x : A) (l : list A) :
  filter (fun a => Z.eqb (key a) q) (sort_insert cmp x l)
  = filter (fun a => Z.eqb (key a) q) (x :: l).
Proof.
  induction l as [|y r IH]; [reflexivity|].
  cbn [sort_insert]. rewrite cmp_key.
  destruct (Z.ltb_spec 0 (key y - key x)) as [Hlt|Hge]; [|reflexivity].
  cbn [filter] in *. rewrite IH.
  destruct (Z.eqb_spec (key x) q), (Z.eqb_spec (key y) q); try reflexivity. lia.
Qed.

Lemma array_sort_stable (q : Z) (l : list A) :
  filter (fun a => Z.eqb (key a) q) (array_sort cmp l)
  = filter (fun a => Z.eqb (key a) q) l.
Proof.
  induction l as [|x r IH]; [reflexivity|].
  cbn [array_sort]. rewrite sort_insert_stable. cbn [filter]. now rewrite IH.
Qed.

Lemma firstn_sorted (n : nat) (l : list A) :
  StronglySorted (descending key) l -> StronglySorted (descending key) (firstn n l).
Proof.
  intros H. revert n. induction H as [|y r Hs IH Hall]; intros [|n]; simpl;
    try constructor.
  - apply IH.
  - rewrite Forall_forall in *. intros z Hz. apply Hall.
    rewrite <- (firstn_skipn n r). apply in_or_app. now left.
Qed.

(** What [sort] followed by [slice(0, n)] gives. *)
Lemma top_sorted_stable (n : nat) (l : list A) :
  let top := slice0 n (array_sort cmp l) in
  StronglySorted (descending key) top
  /\ List.length top = Nat.min n (List.length l)
  /\ (exists rest, Permutation (top ++ rest) l)
  /\ (forall q, exists rest,
        filter (fun a => Z.eqb (key a) q) l
        = filter (fun a => Z.eqb (key a) q) top ++ rest).
Proof.
  intros top. unfold top, slice0. split; [|split; [|split]].
  - apply firstn_sorted, array_sort_sorted.
  - rewrite length_firstn. now rewrite (Permutation_length (array_sort_perm l)).
  - exists (skipn n (array_sort cmp l)). rewrite firstn_skipn. apply array_sort_perm.
  - intros q. exists (filter (fun a => Z.eqb (key a) q) (skipn n (array_sort cmp l))).
    rewrite <- filter_app, firstn_skipn. symmetry. apply array_sort_stable.
Qed.

Lemma sorted_app_le (l1 l2 : list A) :
  StronglySorted (descending key) (l1 ++ l2) ->
  forall a b, In a l1 -> In b l2 -> (key b <= key a)%Z.
Proof.
  induction l1 as [|x l1 IH]; simpl; intros Hs a b Ha Hb; [contradiction|].
  inversion Hs as [|? ? Hs' Hall]; subst.
  destruct Ha as [->|Ha].
  - rewrite Forall_forall in Hall. apply (Hall b). apply in_or_app. now right.
  - now apply (IH Hs' a b).
Qed.

(** What [slice(0, n)] cuts off: the cut entries come after the kept ones in
    the stable sort of the whole list. *)
Lemma top_and_rest (n : nat) (l : list A) :
  let top := slice0 n (array_sort cmp l) in
  exists rest,
    Permutation (top ++ rest) l
    /\ StronglySorted (descending key) (top ++ rest)
    /\ (forall q, filter (fun a => Z.eqb (key a) q) (top ++ rest)
                  = filter (fun a => Z.eqb (key a) q) l)
    /\ (forall a b, In a top -> In b rest -> (key b <= key a)%Z).
Proof.
  intros top. unfold top, slice0.
  exists (skipn n (array_sort cmp l)).
  assert (Hs : StronglySorted (descending key)
                 (firstn n (array_sort cmp l) ++ skipn n (array_sort cmp l))).
  { rewrite firstn_skipn. apply array_sort_sorted. }
  split; [|split; [|split]].
  - rewrite firstn_skipn. apply array_sort_perm.
  - exact Hs.
  - intros q. rewrite firstn_skipn. apply array_sort_stable.
  - now apply sorted_app_le.
Qed.

End SortFacts.

(** ** The entries of the product and location maps *)

Lemma updatesFor_some {V} (k : string) (ups : list (string * (V -> V))) :
  In k (map fst ups) -> updatesFor k ups <> [].
Proof.
  unfold updatesFor. induction ups as [|[k' f] ups IH]; simpl; [tauto|].
  intros [->|H].
  - rewrite String.eqb_refl. discriminate.
  - destruct (String.eqb k' k); [discriminate | now apply IH].
Qed.

(** A [Map] filled from empty by updates, as a table over its keys. *)
Lemma updates_table {V} (d : string -> V) (ups : list (string * (V -> V))) :
  apply_updates d [] ups
  = map (fun k => (k, apply_all (updatesFor k ups) (d k))) (firstSeen (map fst ups)).
Proof.
  assert (Hk : map_keys (apply_updates d [] ups) = firstSeen (map fst ups)).
  { rewrite map_keys_updates. reflexivity. }
  rewrite <- Hk. apply map_as_table.
  - rewrite Hk. apply firstSeen_NoDup.
  - intros k Hin. rewrite Hk, firstSeen_In in Hin.
    rewrite map_get_updates.
    destruct (updatesFor k ups) eqn:E; [|reflexivity].
    exfalso. now apply (updatesFor_some k ups).
Qed.

Lemma sorted_weaken {A} (R R' : A -> A -> Prop) (l : list A) :
  (forall a b, R a b -> R' a b) -> StronglySorted R l -> StronglySorted R' l.
Proof.
  intros HR. induction 1 as [|y r Hs IH Hall]; constructor; [assumption|].
  eapply Forall_impl; [|exact Hall]. intros z. apply HR.
Qed.

Section EntryFacts.

Context {N : JsNumber}.

Lemma product_keys (l : list (Order N)) :
  map fst (flat_map productUpdates l) = productTitles l.
Proof.
  unfold productTitles. induction l as [|o os IH]; simpl; [reflexivity|].
  rewrite map_app, IH. f_equal. unfold productUpdates.
  induction (lineItems o) as [|i items IHi]; simpl; [reflexivity|].
  rewrite map_app, IHi. unfold itemUpdates. now destruct (product i).
Qed.

Lemma location_keys (l : list (Order N)) :
  map fst (flat_map locationUpdates l) = locationLabels l.
Proof.
  unfold locationLabels. induction l as [|o os IH]; simpl; [reflexivity|].
  rewrite map_app, IH. unfold locationUpdates. now destruct (shippingAddress o).
Qed.

Lemma productUpdates_flat (l : list (Order N)) :
  flat_map productUpdates l = flat_map itemUpdates (flat_map (@lineItems N) l).
Proof.
  induction l as [|o os IH]; simpl; [reflexivity|].
  now rewrite flat_map_app, IH.
Qed.

Lemma product_updatesFor (key : string) (l : list (Order N)) :
  updatesFor key (flat_map productUpdates l) = map bumpProduct (itemsOf key l).
Proof.
  rewrite productUpdates_flat. unfold itemsOf, updatesFor.
  induction (flat_map (@lineItems N) l) as [|i items IH]; simpl; [reflexivity|].
  rewrite filter_app, map_app, IH. unfold itemUpdates, hasTitle.
  destruct (product i) as [prod|]; simpl; [|reflexivity].
  now destruct (String.eqb (title prod) key).
Qed.

Lemma bumpProduct_all (items : list (LineItem N)) : forall s : ProductStat N,
  apply_all (map bumpProduct items) s
  = {| p_name := p_name s;
       p_quantity := fold_left Z.add (map (@quantity N) items) (p_quantity s);
       p_revenue :=
         fold_left nadd
           (map (fun i => nmul (nofZ (quantity i)) (variantPrice i)) items)
           (p_revenue s);
       p_orders := p_orders s + List.length items |}.
Proof.
  unfold apply_all. induction items as [|i items IH]; intros s; simpl.
  - destruct s; simpl. f_equal. lia.
  - rewrite IH. simpl. f_equal. lia.
Qed.

(** [productStats] at the end of the loop: one entry per title, in the order
    the titles are first met, adding up the line items sold under it. *)
Lemma productEntries_table (l : list (Order N)) :
  productEntries l
  = map (fun key => productStatOf key (itemsOf key l)) (firstSeen (productTitles l)).
Proof.
  unfold productEntries, map_values.
  rewrite productStats_final, updates_table, product_keys, map_map. cbn [snd].
  apply map_ext. intros key. rewrite product_updatesFor, bumpProduct_all.
  reflexivity.
Qed.

Lemma location_updatesFor (location : string) (l : list (Order N)) :
  updatesFor location (flat_map locationUpdates l)
  = map (fun o => bumpStat (amount o)) (filter (atLocation location) l).
Proof.
  unfold updatesFor. induction l as [|o os IH]; simpl; [reflexivity|].
  rewrite filter_app, map_app, IH. unfold locationUpdates, atLocation.
  destruct (shippingAddress o) as [city|]; simpl; [|reflexivity].
  now destruct (String.eqb (strOr city "Unknown") location).
Qed.

(** [locationStats] at the end of the loop: one entry per label, in the
    order the labels are first met, adding up the orders shipped there. *)
Lemma locationEntries_table (l : list (Order N)) :
  locationEntries l
  = map (fun location => (location, statOf (filter (atLocation location) l)))
        (firstSeen (locationLabels l)).
Proof.
  unfold locationEntries.
  rewrite locationStats_final, updates_table, location_keys.
  apply map_ext. intros location. rewrite location_updatesFor, bump_all.
  reflexivity.
Qed.

Lemma atLocation_shippedTo (location : string) (o : Order N) :
  atLocation location o = shippedTo location o.
Proof.
  unfold atLocation, shippedTo, strOr.
  destruct (shippingAddress o) as [[city|]|]; try reflexivity.
  now destruct (String.eqb city "").
Qed.

(** The lookup of a label in the location map, in closed form. *)
Lemma locationEntries_lookup (l : list (Order N)) (location : string) :
  map_get (locationEntries l) location
  = if existsb (atLocation location) l
    then Some (statOf (filter (atLocation location) l)) else None.
Proof.
  unfold locationEntries.
  rewrite locationStats_final, map_get_updates, location_updatesFor.
  rewrite existsb_filter_length.
  destruct (filter (atLocation location) l) as [|o os]; [reflexivity|].
  cbn [map List.length Nat.eqb negb].
  change (bumpStat (amount o) :: map (fun o0 : Order N => bumpStat (amount o0)) os)
    with (map (fun o0 : Order N => bumpStat (amount o0)) (o :: os)).
  rewrite bump_all. reflexivity.
Qed.

(** C9. The product list is the entries of the product map sorted by
    cumulative quantity, largest first, and cut to the first ten; the location
    list is the entries of the location map sorted by order count, largest
    first, and cut to the first ten.  The maps hold one entry per product
    title (per location label) in the order these are first met in the input,
    and the sort is stable: the entries of the output that share a sort key are
    the first of the entries with that key, in that first-met order.  The cut
    keeps the top: the output followed by the entries that were cut off is the
    whole map in descending order of the key, the entries of each key in
    first-met order, so no entry that was cut off has a larger key than an
    entry that was kept. *)
Theorem top_ten_sorted_stable (l : list (Order N)) :
  let r := processAnalyticsData l in
  (productEntries l
   = map (fun key => productStatOf key (itemsOf key l)) (firstSeen (productTitles l))
   /\ StronglySorted (fun a b => (p_quantity b <= p_quantity a)%Z) (productData r)
   /\ List.length (productData r) = Nat.min 10 (List.length (productEntries l))
   /\ (exists rest, Permutation (productData r ++ rest) (productEntries l))
   /\ (forall q, exists rest,
         filter (fun a => Z.eqb (p_quantity a) q) (productEntries l)
         = filter (fun a => Z.eqb (p_quantity a) q) (productData r) ++ rest)
   /\ (exists rest,
         Permutation (productData r ++ rest) (productEntries l)
         /\ StronglySorted (fun a b => (p_quantity b <= p_quantity a)%Z)
              (productData r ++ rest)
         /\ (forall q,
               filter (fun a => Z.eqb (p_quantity a) q) (productData r ++ rest)
               = filter (fun a => Z.eqb (p_quantity a) q) (productEntries l))
         /\ (forall kept cut, In kept (productData r) -> In cut rest ->
               (p_quantity cut <= p_quantity kept)%Z)))
  /\
  (locationEntries l
   = map (fun location => (location, statOf (filter (atLocation location) l)))
         (firstSeen (locationLabels l))
   /\ StronglySorted (fun a b => orders (snd b) <= orders (snd a)) (locationData r)
   /\ List.length (locationData r) = Nat.min 10 (List.length (locationEntries l))
   /\ (exists rest, Permutation (locationData r ++ rest) (locationEntries l))
   /\ (forall n, exists rest,
         filter (fun e => Nat.eqb (orders (snd e)) n) (locationEntries l)
         = filter (fun e => Nat.eqb (orders (snd e)) n) (locationData r) ++ rest)
   /\ (exists rest,
         Permutation (locationData r ++ rest) (locationEntries l)
         /\ StronglySorted (fun a b => orders (snd b) <= orders (snd a))
              (locationData r ++ rest)
         /\ (forall n,
               filter (fun e => Nat.eqb (orders (snd e)) n) (locationData r ++ rest)
               = filter (fun e => Nat.eqb (orders (snd e)) n) (locationEntries l))
         /\ (forall kept cut, In kept (locationData r) -> In cut rest ->
               orders (snd cut) <= orders (snd kept)))).
Proof.
  intros r. split.
  - split; [apply productEntries_table|].
    assert (Hr : productData r = slice0 10 (array_sort byQuantityDesc (productEntries l)))
      by reflexivity.
    rewrite Hr.
    destruct (@top_sorted_stable _ (@p_quantity N) byQuantityDesc
                (fun a b => eq_refl) 10 (productEntries l)) as (Hs & Hl & Hp & Hq).
    destruct (@top_and_rest _ (@p_quantity N) byQuantityDesc
                (fun a b => eq_refl) 10 (productEntries l))
      as (rest & Hperm & Hsorted & Hstable & Hcut).
    split; [exact Hs | split; [exact Hl | split; [exact Hp | split; [exact Hq|]]]].
    exists rest. repeat split; assumption.
  - split; [apply locationEntries_table|].
    assert (Hr : locationData r = slice0 10 (array_sort byOrdersDesc (locationEntries l)))
      by reflexivity.
    rewrite Hr.
    assert (Hext : forall n (xs : list (string * Stat N)),
               filter (fun e => Nat.eqb (orders (snd e)) n) xs
               = filter (fun e => Z.eqb (Z.of_nat (orders (snd e))) (Z.of_nat n)) xs).
    { intros n xs. apply filter_ext. intros e.
      destruct (Nat.eqb_spec (orders (snd e)) n),
               (Z.eqb_spec (Z.of_nat (orders (snd e))) (Z.of_nat n));
        try reflexivity; lia. }
    destruct (@top_sorted_stable _ (fun e : string * Stat N => Z.of_nat (orders (snd e)))
                byOrdersDesc (fun a b => eq_refl) 10 (locationEntries l))
      as (Hs & Hl & Hp & Hq).
    destruct (@top_and_rest _ (fun e : string * Stat N => Z.of_nat (orders (snd e)))
                byOrdersDesc (fun a b => eq_refl) 10 (locationEntries l))
      as (rest & Hperm & Hsorted & Hstable & Hcut).
    split; [|split; [exact Hl | split; [exact Hp | split]]].
    + eapply sorted_weaken; [|exact Hs]. unfold descending. intros a b H. lia.
    + intros n. destruct (Hq (Z.of_nat n)) as [rest' Hrest]. exists rest'.
      rewrite !Hext. exact Hrest.
    + exists rest. split; [exact Hperm | split; [|split]].
      * eapply sorted_weaken; [|exact Hsorted]. unfold descending. intros a b H. lia.
      * intros n. rewrite !Hext. apply Hstable.
      * intros kept cut Hk Hc. specialize (Hcut kept cut Hk Hc). lia.
Qed.

End EntryFacts.

(** ** Line items without a product, and the orders that hold them *)

Section AbsentProductTheorem.

Context {N : JsNumber}.

Lemma productUpdates_absent (order : Order N) :
  (forall item, In item (lineItems order) -> product item = None) ->
  productUpdates order = [].
Proof.
  unfold productUpdates.
  induction (lineItems order) as [|i items IH]; intros H; simpl; [reflexivity|].
  unfold itemUpdates at 1. rewrite (H i (or_introl eq_refl)). simpl.
  apply IH. intros item Hin. apply H. now right.
Qed.

Lemma productStats_without (before after : list (Order N)) (order : Order N) :
  (forall item, In item (lineItems order) -> product item = None) ->
  acc_productStats (finalAcc (before ++ order :: after))
  = acc_productStats (finalAcc (before ++ after)).
Proof.
  intros H. rewrite !productStats_final, !flat_map_app. simpl.
  now rewrite (productUpdates_absent order H).
Qed.

(** C10. A line item whose product record is absent is skipped: the summary
    of a sequence of orders is the summary of the same orders with all such
    line items removed; the entry of a product adds up the line items that
    carry a product of its title, of which such an item is none; and an order
    all of whose line items lack a product leaves the product list as it is
    without that order.  The order that holds such an item counts like any
    other: [totalOrders] is the number of all orders and [totalRevenue] the
    sum of all their amounts, the entry of a month counts every order
    processed in it, the segments count every customer by the number of their
    orders, and the entry of a location counts every order shipped there,
    none of which looks at the line items. *)
Theorem absent_product_items_are_skipped (orders : list (Order N)) :
  let r := processAnalyticsData orders in
  processAnalyticsData (map dropAbsentProducts orders) = r
  /\ productEntries orders
     = map (fun key => productStatOf key (itemsOf key orders))
           (firstSeen (productTitles orders))
  /\ (forall key item, product item = None -> hasTitle key item = false)
  /\ (forall before order after,
        orders = before ++ order :: after ->
        (forall item, In item (lineItems order) -> product item = None) ->
        productData r = productData (processAnalyticsData (before ++ after)))
  /\ totalOrders r = List.length orders
  /\ totalRevenue r = fold_left nadd (map (@amount N) orders) nzero
  /\ (forall month,
        map_get (monthlyData r) month
        = if hasKey months2025 month || existsb (inMonth month) orders
          then Some (monthStat month orders) else None)
  /\ customerSegments r
     = {| newCustomers :=
            List.length
              (filter (fun c => Nat.eqb (orderCountOf c orders) 1) (customersOf orders));
          returningCustomers :=
            List.length
              (filter (fun c => negb (Nat.eqb (orderCountOf c orders) 1)
                                && negb (Nat.leb 5 (orderCountOf c orders)))
                      (customersOf orders));
          vipCustomers :=
            List.length
              (filter (fun c => Nat.leb 5 (orderCountOf c orders)) (customersOf orders)) |}
  /\ (forall location,
        map_get (locationEntries orders) location
        = if existsb (atLocation location) orders
          then Some (statOf (filter (atLocation location) orders)) else None)
  /\ locationData r = slice0 10 (array_sort byOrdersDesc (locationEntries orders)).
Proof.
  intros r. unfold r.
  split; [|split; [|split; [|split; [|split; [|split; [|split; [|split; [|split]]]]]]]].
  - unfold processAnalyticsData.
    fold (finalAcc (map dropAbsentProducts orders)). fold (finalAcc orders).
    now rewrite finalAcc_dropAbsent, length_map.
  - apply productEntries_table.
  - intros key item H. unfold hasTitle. now rewrite H.
  - intros before order after -> H.
    unfold processAnalyticsData. cbn [productData].
    fold (finalAcc (before ++ order :: after)). fold (finalAcc (before ++ after)).
    now rewrite (productStats_without before after order H).
  - reflexivity.
  - unfold processAnalyticsData. cbn [totalRevenue].
    now rewrite fold_orderStep_revenue.
  - intros month. apply monthlyData_lookup.
  - apply segments_closed_form.
  - intros location. apply locationEntries_lookup.
  - reflexivity.
Qed.

End AbsentProductTheorem.

(** ** The order of the input and the summary *)

Lemma months2025_NoDup : NoDup months2025.
Proof. repeat constructor; simpl; intuition discriminate. Qed.

Lemma fold_Zadd_perm (l l' : list Z) :
  Permutation l l' -> forall z, fold_left Z.add l z = fold_left Z.add l' z.
Proof.
  induction 1 as [|x l l' _ IH|x y l|l l' l'' _ IH1 _ IH2]; intros z; simpl.
  - reflexivity.
  - apply IH.
  - f_equal. lia.
  - now rewrite IH1.
Qed.

Lemma flat_map_perm {A B} (f : A -> list B) (l l' : list A) :
  Permutation l l' -> Permutation (flat_map f l) (flat_map f l').
Proof.
  induction 1 as [|x l l' _ IH|x y l|l l' l'' _ IH1 _ IH2]; simpl.
  - constructor.
  - now apply Permutation_app_head.
  - rewrite !app_assoc. apply Permutation_app_tail, Permutation_app_comm.
  - now transitivity (flat_map f l').
Qed.

Lemma firstSeen_perm (ks ks' : list string) :
  Permutation ks ks' -> Permutation (firstSeen ks) (firstSeen ks').
Proof.
  intros H. apply NoDup_Permutation; try apply firstSeen_NoDup.
  intros k. rewrite !firstSeen_In.
  split; apply Permutation_in; [assumption | now symmetry].
Qed.

Lemma table_perm {A B} (f g : A -> B) (ks ks' : list A) :
  Permutation ks ks' -> (forall k, f k = g k) -> Permutation (map f ks) (map g ks').
Proof. intros H E. rewrite (map_ext f g E). now apply Permutation_map. Qed.

Lemma NoDup_map_of_nat (l : list nat) : NoDup l -> NoDup (map Z.of_nat l).
Proof.
  induction 1 as [|x l Hx Hl IH]; simpl; constructor; [|exact IH].
  rewrite in_map_iff. intros [y [Hy Hin]]. apply Nat2Z.inj in Hy. now subst.
Qed.

(** Two lists in descending order of a key, with the same elements and no
    key twice, are the same list. *)
Section SortedUnique.

Variable A : Type.
Variable key : A -> Z.

Lemma sorted_unique (l l' : list A) :
  StronglySorted (descending key) l -> StronglySorted (descending key) l' ->
  Permutation l l' -> NoDup (map key l) -> l = l'.
Proof.
  revert l'. induction l as [|x xs IH]; intros l' Hs Hs' Hp Hnd.
  - apply Permutation_nil in Hp. now subst.
  - destruct l' as [|y ys];
      [apply Permutation_sym, Permutation_nil in Hp; discriminate|].
    inversion Hs as [|? ? Hsx Hax]; subst.
    inversion Hs' as [|? ? Hsy Hay]; subst.
    inversion Hnd as [|? ? Hnotin Hnd']; subst.
    rewrite Forall_forall in Hax, Hay.
    assert (Hxy : x = y).
    { assert (Hy : In y (x :: xs))
        by (apply (Permutation_in y (Permutation_sym Hp)); now left).
      destruct Hy as [Hy|Hy]; [exact Hy|].
      assert (Hx : In x (y :: ys)) by (apply (Permutation_in x Hp); now left).
      destruct Hx as [Hx|Hx]; [now symmetry|].
      exfalso. apply Hnotin.
      specialize (Hax y Hy). specialize (Hay x Hx). unfold descending in Hax, Hay.
      replace (key x) with (key y) by lia. now apply in_map. }
    subst y. f_equal. apply IH; try assumption.
    now apply Permutation_cons_inv with x.
Qed.

Lemma sorted_map {B} (f : A -> B) (keyB : B -> Z) (l : list A) :
  (forall a, keyB (f a) = key a) ->
  StronglySorted (descending key) l -> StronglySorted (descending keyB) (map f l).
Proof.
  intros E. induction 1 as [|x xs Hs IH Hall]; simpl; constructor; [exact IH|].
  rewrite Forall_map. eapply Forall_impl; [|exact Hall].
  intros a. unfold descending. now rewrite !E.
Qed.

End SortedUnique.

(** With no key twice, [sort] and [slice(0, n)] give the same list for the
    same elements, as far as a projection [f] that keeps the key can see. *)
Lemma top_agree {A B} (key : A -> Z) (cmp : A -> A -> Z) (f : A -> B)
  (keyB : B -> Z) (n : nat) (es es' : list A) :
  (forall a b, cmp a b = (key b - key a)%Z) ->
  (forall a, keyB (f a) = key a) ->
  Permutation (map f es) (map f es') -> NoDup (map key es) ->
  map f (slice0 n (array_sort cmp es)) = map f (slice0 n (array_sort cmp es')).
Proof.
  intros cmp_key E Hp Hnd. unfold slice0. rewrite <- !firstn_map. f_equal.
  assert (Hsort : forall xs, StronglySorted (descending keyB) (map f (array_sort cmp xs))).
  { intros xs. apply (@sorted_map A key B f keyB); [exact E|].
    now apply array_sort_sorted. }
  assert (Hperm : forall xs, Permutation (map f (array_sort cmp xs)) (map f xs)).
  { intros xs. apply Permutation_map, array_sort_perm. }
  apply (@sorted_unique B keyB); try apply Hsort.
  - rewrite (Hperm es), Hp. symmetry. apply Hperm.
  - rewrite map_map, (map_ext _ key E).
    apply Permutation_NoDup with (map key es); [|exact Hnd].
    symmetry. apply Permutation_map, array_sort_perm.
Qed.


Lemma filter_all {A} (l : list A) : filter (fun _ => true) l = l.
Proof. induction l as [|x l IH]; simpl; [reflexivity | now rewrite IH]. Qed.

Section PermutationEntryFacts.

Context {N : JsNumber}.

Lemma itemsOf_perm (key : string) (l l' : list (Order N)) :
  Permutation l l' -> Permutation (itemsOf key l) (itemsOf key l').
Proof. intros H. unfold itemsOf. now apply filter_perm, flat_map_perm. Qed.

Lemma productCounts_perm (l l' : list (Order N)) :
  Permutation l l' ->
  Permutation (map (@productCounts N) (productEntries l))
              (map (@productCounts N) (productEntries l')).
Proof.
  intros H. rewrite !productEntries_table, !map_map.
  apply table_perm.
  - apply firstSeen_perm. unfold productTitles. now apply flat_map_perm.
  - intros key. unfold productCounts, productStatOf. cbn.
    f_equal; [f_equal|].
    + apply fold_Zadd_perm. now apply Permutation_map, itemsOf_perm.
    + apply Permutation_length. now apply itemsOf_perm.
Qed.

Lemma locationCounts_perm (l l' : list (Order N)) :
  Permutation l l' ->
  Permutation (map (@locationCounts N) (locationEntries l))
              (map (@locationCounts N) (locationEntries l')).
Proof.
  intros H. rewrite !locationEntries_table, !map_map.
  apply table_perm.
  - apply firstSeen_perm. unfold locationLabels. now apply flat_map_perm.
  - intros location. unfold locationCounts, statOf. cbn.
    f_equal. now apply filter_length_perm.
Qed.

Lemma monthLabels_perm (l l' : list (Order N)) :
  Permutation l l' ->
  Permutation (map_keys (monthlyData (processAnalyticsData l)))
              (map_keys (monthlyData (processAnalyticsData l'))).
Proof.
  intros H. rewrite !monthlyData_keys.
  assert (Hk : Permutation (map fst (flat_map (@monthlyUpdates N) l))
                           (map fst (flat_map (@monthlyUpdates N) l')))
    by now apply Permutation_map, flat_map_perm.
  apply NoDup_Permutation; try (apply fold_addKey_NoDup, months2025_NoDup).
  intros k. rewrite !fold_addKey_In.
  split; (intros [Hin|Hin]; [now left | right]).
  - now apply (Permutation_in k Hk).
  - now apply (Permutation_in k (Permutation_sym Hk)).
Qed.

Variable units : Order N -> Z.

Lemma sumAbs_nonneg (s : list (Order N)) : (0 <= sumAbs units s)%Z.
Proof. induction s as [|o s IH]; simpl; lia. Qed.

Lemma sumAbs_filter (p : Order N -> bool) (s : list (Order N)) :
  (sumAbs units (filter p s) <= sumAbs units s)%Z.
Proof. induction s as [|o s IH]; simpl; [lia|]. destruct (p o); simpl; lia. Qed.

Lemma sumAbs_perm (s s' : list (Order N)) :
  Permutation s s' -> sumAbs units s = sumAbs units s'.
Proof.
  induction 1 as [|x l l' _ IH|x y l|l l' l'' _ IH1 _ IH2]; simpl; lia.
Qed.

Lemma sumUnits_perm (s s' : list (Order N)) :
  Permutation s s' -> sumUnits units s = sumUnits units s'.
Proof.
  induction 1 as [|x l l' _ IH|x y l|l l' l'' _ IH1 _ IH2]; simpl; lia.
Qed.

Lemma wholeAmounts_perm (l l' : list (Order N)) :
  Permutation l l' -> wholeAmounts units l -> wholeAmounts units l'.
Proof.
  intros H Hw o Hin. apply Hw. now apply (Permutation_in o (Permutation_sym H)).
Qed.

Lemma addsExactly_perm (l l' : list (Order N)) :
  Permutation l l' -> addsExactly units l -> addsExactly units l'.
Proof.
  intros H [H0 He]. split; [exact H0|].
  intros z o Hin. rewrite <- (sumAbs_perm H). apply He.
  now apply (Permutation_in o (Permutation_sym H)).
Qed.

(** A sum of whole amounts that add exactly is the number of the sum of the
    wholes. *)
Lemma exact_fold (l : list (Order N)) :
  wholeAmounts units l -> addsExactly units l ->
  forall s, (forall o, In o s -> In o l) ->
  forall z, (Z.abs z + sumAbs units s <= sumAbs units l)%Z ->
    fold_left nadd (map (@amount N) s) (nofZ z) = nofZ (z + sumUnits units s).
Proof.
  intros Hw [_ He]. induction s as [|o s IH]; intros Hin z Hb; simpl.
  - now rewrite Z.add_0_r.
  - simpl in Hb. pose proof (sumAbs_nonneg s) as Hs.
    rewrite (Hw o) by (apply Hin; now left).
    rewrite He; [| apply Hin; now left | lia | lia].
    rewrite IH; [f_equal; lia | intros; apply Hin; now right | lia].
Qed.

Lemma exact_sum (l : list (Order N)) (p : Order N -> bool) :
  wholeAmounts units l -> addsExactly units l ->
  fold_left nadd (map (@amount N) (filter p l)) nzero
  = nofZ (sumUnits units (filter p l)).
Proof.
  intros Hw He. destruct He as [H0 He]. rewrite H0.
  rewrite (@exact_fold l Hw (conj H0 He)).
  - reflexivity.
  - intros o Hin. apply filter_In in Hin. tauto.
  - pose proof (sumAbs_filter p l). simpl. lia.
Qed.

Lemma statOf_filter_exact (p : Order N -> bool) (l l' : list (Order N)) :
  Permutation l l' -> wholeAmounts units l -> addsExactly units l ->
  statOf (filter p l) = statOf (filter p l').
Proof.
  intros H Hw He. unfold statOf. f_equal.
  - now apply filter_length_perm.
  - rewrite (exact_sum p Hw He).
    rewrite (exact_sum p (wholeAmounts_perm H Hw) (addsExactly_perm H He)).
    f_equal. now apply sumUnits_perm, filter_perm.
Qed.

Lemma locationEntries_perm (l l' : list (Order N)) :
  Permutation l l' -> wholeAmounts units l -> addsExactly units l ->
  Permutation (locationEntries l) (locationEntries l').
Proof.
  intros H Hw He. rewrite !locationEntries_table.
  apply table_perm.
  - apply firstSeen_perm. unfold locationLabels. now apply flat_map_perm.
  - intros location. f_equal. now apply statOf_filter_exact.
Qed.

End PermutationEntryFacts.

Section PermutationTheorem.

Context {N : JsNumber}.

(** C8, as the code has it. For a sequence of orders and any permutation of
    it the summary has the same total order count, fulfilled count and paid
    count, the same order count under every month, and the same segment
    counts.  The monthly collection has the same labels, the twelve months
    of 2025 in the same places, the further months in the order their orders
    come in.  The product map and the location map hold the same titles and
    labels with the same quantities and counts, so that, when no two entries
    tie on the sort key, the product list and the location list name the same
    entries in the same order.  The revenue figures are sums taken in input
    order: when the amounts are whole numbers that add exactly, the total
    revenue is the number of their sum, and the total, the average, the
    revenue under every month and under every location are the same for both
    sequences. *)
Theorem aggregation_under_permutation (l l' : list (Order N)) :
  Permutation l l' ->
  let r := processAnalyticsData l in
  let r' := processAnalyticsData l' in
  totalOrders r = totalOrders r'
  /\ fulfilledOrders r = fulfilledOrders r'
  /\ paidOrders r = paidOrders r'
  /\ (forall month,
        option_map (@orders N) (map_get (monthlyData r) month)
        = option_map (@orders N) (map_get (monthlyData r') month))
  /\ customerSegments r = customerSegments r'
  /\ firstn 12 (map_keys (monthlyData r)) = firstn 12 (map_keys (monthlyData r'))
  /\ Permutation (map_keys (monthlyData r)) (map_keys (monthlyData r'))
  /\ Permutation (map (@productCounts N) (productEntries l))
                 (map (@productCounts N) (productEntries l'))
  /\ Permutation (map (@locationCounts N) (locationEntries l))
                 (map (@locationCounts N) (locationEntries l'))
  /\ (NoDup (map (@p_quantity N) (productEntries l)) ->
      map (@productCounts N) (productData r) = map (@productCounts N) (productData r'))
  /\ (NoDup (map (fun e => orders (snd e)) (locationEntries l)) ->
      map (@locationCounts N) (locationData r)
      = map (@locationCounts N) (locationData r'))
  /\ (forall units : Order N -> Z,
        wholeAmounts units l -> addsExactly units l ->
        totalRevenue r = nofZ (sumUnits units l)
        /\ totalRevenue r = totalRevenue r'
        /\ averageOrderValue r = averageOrderValue r'
        /\ (forall month,
              map_get (monthlyData r) month = map_get (monthlyData r') month)
        /\ Permutation (locationEntries l) (locationEntries l')
        /\ (NoDup (map (fun e => orders (snd e)) (locationEntries l)) ->
            locationData r = locationData r')).
Proof.
  intros H r r'. unfold r, r'.
  split; [|split; [|split; [|split; [|split; [|split; [|split;
    [|split; [|split; [|split; [|split]]]]]]]]]].
  - unfold processAnalyticsData. simpl. now apply Permutation_length.
  - unfold processAnalyticsData. simpl. rewrite !fold_orderStep_fulfilled.
    f_equal. now apply filter_length_perm.
  - unfold processAnalyticsData. simpl. rewrite !fold_orderStep_paid.
    f_equal. now apply filter_length_perm.
  - intros month. rewrite !monthlyData_lookup.
    rewrite (existsb_perm (inMonth month) H).
    destruct (hasKey months2025 month || existsb (inMonth month) l'); [|reflexivity].
    simpl. f_equal. now apply filter_length_perm.
  - now apply segments_perm.
  - now rewrite !monthlyData_first_twelve.
  - now apply monthLabels_perm.
  - now apply productCounts_perm.
  - now apply locationCounts_perm.
  - intros Hnd.
    apply (@top_agree _ _ (@p_quantity N) byQuantityDesc
             (@productCounts N) (fun t => snd (fst t)) 10
             (productEntries l) (productEntries l')).
    + reflexivity.
    + reflexivity.
    + now apply productCounts_perm.
    + exact Hnd.
  - intros Hnd.
    apply (@top_agree _ _ (fun e : string * Stat N => Z.of_nat (orders (snd e)))
             byOrdersDesc (@locationCounts N) (fun t => Z.of_nat (snd t)) 10
             (locationEntries l) (locationEntries l')).
    + reflexivity.
    + reflexivity.
    + now apply locationCounts_perm.
    + rewrite <- (map_map (fun e : string * Stat N => orders (snd e)) Z.of_nat).
      now apply NoDup_map_of_nat.
  - intros units Hw He.
    assert (Hall : forall xs : list (Order N), filter (fun _ => true) xs = xs)
      by apply filter_all.
    assert (Hsum : forall xs : list (Order N),
               totalRevenue (processAnalyticsData xs)
               = fold_left nadd (map (@amount N) xs) nzero).
    { intros xs. unfold processAnalyticsData. cbn [totalRevenue].
      now rewrite fold_orderStep_revenue. }
    assert (Hrev : totalRevenue (processAnalyticsData l) = nofZ (sumUnits units l)).
    { rewrite Hsum. rewrite <- (Hall l) at 1 2. now apply exact_sum. }
    assert (Hrev' : totalRevenue (processAnalyticsData l') = nofZ (sumUnits units l)).
    { rewrite Hsum, (sumUnits_perm units H). rewrite <- (Hall l') at 1 2.
      apply exact_sum.
      - now apply (wholeAmounts_perm H).
      - now apply (addsExactly_perm H). }
    split; [exact Hrev|]. split; [now rewrite Hrev, Hrev'|].
    split; [|split; [|split]].
    + unfold processAnalyticsData in *. cbn [averageOrderValue totalRevenue] in *.
      rewrite Hrev, Hrev'. now rewrite (Permutation_length H).
    + intros month. rewrite !monthlyData_lookup.
      rewrite (existsb_perm (inMonth month) H).
      destruct (hasKey months2025 month || existsb (inMonth month) l'); [|reflexivity].
      f_equal. unfold monthStat.
      exact (@statOf_filter_exact N units (inMonth month) l l' H Hw He).
    + now apply (locationEntries_perm H Hw He).
    + intros Hnd.
      assert (Hr : forall xs, locationData (processAnalyticsData xs)
                   = firstn 10 (array_sort byOrdersDesc (locationEntries xs)))
        by reflexivity.
      rewrite !Hr. f_equal.
      apply (@sorted_unique _ (fun e : string * Stat N => Z.of_nat (orders (snd e)))).
      * now apply array_sort_sorted.
      * now apply array_sort_sorted.
      * rewrite (array_sort_perm byOrdersDesc (locationEntries l)).
        rewrite (locationEntries_perm H Hw He).
        symmetry. apply array_sort_perm.
      * rewrite <- (map_map (fun e : string * Stat N => orders (snd e)) Z.of_nat).
        apply NoDup_map_of_nat.
        apply Permutation_NoDup with (map (fun e => orders (snd e)) (locationEntries l));
          [|exact Hnd].
        symmetry. apply Permutation_map, array_sort_perm.
Qed.

End PermutationTheorem.

(** The months outside 2025 stand after the twelve in the order in which
    their first orders come in. *)
Lemma extra_months_follow_input_order :
  skipn 12 (map_keys (monthlyData (processAnalyticsData [orderDec2024; orderJan2026])))
  = ["Dec 2024"; "Jan 2026"]
  /\ skipn 12 (map_keys (monthlyData (processAnalyticsData [orderJan2026; orderDec2024])))
     = ["Jan 2026"; "Dec 2024"].
Proof. split; vm_compute; reflexivity. Qed.

(** Binary64 adds whole numbers of this size exactly: the checks of
    [addsExactlyOn] are what [addsExactly] asks for. *)
Lemma wholesWithin_In (bound z : Z) :
  (Z.abs z <= bound)%Z -> In z (wholesWithin bound).
Proof.
  intros H. unfold wholesWithin. apply in_map_iff.
  exists (Z.to_nat (z + bound)). split; [lia|]. apply in_seq. lia.
Qed.

Lemma addsExactlyOn_sound (l : list (Order float64)) :
  addsExactlyOn l = true -> addsExactly unitsOf l.
Proof.
  intros H. split; [reflexivity|].
  intros z o Hin Hz _. unfold addsExactlyOn in H.
  rewrite forallb_forall in H. specialize (H o Hin).
  rewrite forallb_forall in H. specialize (H z (wholesWithin_In _ Hz)).
  now apply FloatAxioms.Leibniz.eqb_spec in H.
Qed.

(** The three orders of the scenario, of 100, 50 and 200, in their order and
    in the reverse order: binary64 adds them exactly, the revenue is 350 both
    ways, and the product list is the same. *)
Lemma aggregation_under_permutation_witness :
  totalRevenue (processAnalyticsData scenario) = 350%float
  /\ totalRevenue (processAnalyticsData (rev scenario)) = 350%float
  /\ map (@productCounts float64) (productData (processAnalyticsData scenario))
     = map (@productCounts float64) (productData (processAnalyticsData (rev scenario))).
Proof.
  destruct (@aggregation_under_permutation float64 scenario (rev scenario)
              (Permutation_rev scenario))
    as (_ & _ & _ & _ & _ & _ & _ & _ & _ & Hproducts & _ & Hexact).
  assert (Hw : wholeAmounts unitsOf scenario).
  { intros o [<-|[<-|[<-|[]]]]; vm_compute; reflexivity. }
  assert (He : addsExactly unitsOf scenario).
  { apply addsExactlyOn_sound. vm_compute. reflexivity. }
  destruct (Hexact unitsOf Hw He) as (Hrev & Hsame & _).
  split; [|split].
  - rewrite Hrev. vm_compute. reflexivity.
  - rewrite <- Hsame, Hrev. vm_compute. reflexivity.
  - apply Hproducts. vm_compute. repeat constructor; simpl; intuition discriminate.
Defined.

(** ** The [catch] block *)

Lemma onError_retry (errorMessage : string) (retryCount : nat) :
  retryCount < maxRetries ->
  onError errorMessage retryCount
  = Retry (S retryCount) (backoffBase errorMessage * N.of_nat (S retryCount))%N.
Proof.
  intros H. unfold onError, backoffBase, isTransient.
  apply Nat.ltb_lt in H. rewrite H.
  destruct (includes errorMessage "Throttled" || includes errorMessage "fetch failed");
    reflexivity.
Qed.

Lemma onError_break (errorMessage : string) (retryCount : nat) :
  maxRetries <= retryCount -> onError errorMessage retryCount = Break.
Proof.
  intros H. unfold onError.
  assert (Hlt : (retryCount <? maxRetries)%nat = false) by now apply Nat.ltb_ge.
  rewrite Hlt. now rewrite andb_false_r.
Qed.

(** ** The retry loop and the pagination loop *)

Section FetchFacts.

Context {N : JsNumber}.

Implicit Types (up : Upstream N) (st : FetchState N) (w : World) (resp : Response N).

Lemma onResponse_Normal resp st st' :
  onResponse resp st = Normal st' ->
  accepted resp = true
  /\ thrownMessage resp = None
  /\ allOrders st' = allOrders st ++ pageOf resp
  /\ pageCount st' = S (pageCount st).
Proof.
  unfold onResponse, accepted, thrownMessage, pageOf.
  destruct resp as [e|d]; [discriminate|].
  destruct (errors d) as [|m ms].
  - destruct (dataOrders d) as [conn|]; [|discriminate].
    intros [= <-]. simpl. auto.
  - destruct (includes m "Throttled"); discriminate.
Qed.

Lemma onResponse_Throw resp st error :
  onResponse resp st = Throw error ->
  accepted resp = false
  /\ thrownMessage resp = Some (errorMessageOf error)
  /\ pageOf resp = [].
Proof.
  unfold onResponse, accepted, thrownMessage, pageOf.
  destruct resp as [e|d]; [intros [= <-]; auto|].
  destruct (errors d) as [|m ms].
  - destruct (dataOrders d) as [conn|]; [discriminate|].
    intros [= <-]. auto.
  - destruct (includes m "Throttled"); intros [= <-]; auto.
Qed.

Lemma attempt_eq up st w :
  exists w',
    attempt up st w = (onResponse (up (requests w)) st, w')
    /\ requests w' = S (requests w)
    /\ effects w'
       = effects w
         ++ (if (0 <? pageCount st)%nat then [Delay 1500%N] else [])
         ++ [Graphql (cursor st)].
Proof.
  unfold attempt, graphql.
  destruct (0 <? pageCount st)%nat; simpl; eexists; repeat split.
  now rewrite <- app_assoc.
Qed.

Lemma collected_step up (from k : nat) :
  collected up from (S k) = pageOf (up from) ++ collected up (S from) k.
Proof. reflexivity. Qed.

Lemma collected_app up (from k1 k2 : nat) :
  collected up from (k1 + k2)
  = collected up from k1 ++ collected up (from + k1) k2.
Proof. unfold collected. now rewrite seq_app, flat_map_app. Qed.

(** What one run of the retry loop does: it issues between one and
    [maxRetries + 1 - retryCount] requests; it ends in success on the first
    accepted response and leaves the loop variables alone otherwise. *)
Lemma retryLoop_spec up st : forall fuel retryCount w,
  retryCount <= maxRetries ->
  maxRetries < fuel + retryCount ->
  exists ok st' w' k,
    retryLoop fuel up st retryCount w = Some (ok, st', w')
    /\ requests w' = requests w + k
    /\ 1 <= k <= S maxRetries - retryCount
    /\ allOrders st' = allOrders st ++ collected up (requests w) k
    /\ (forall n, requests w <= n < requests w + (k - 1) -> accepted (up n) = false)
    /\ (ok = true ->
        accepted (up (requests w + (k - 1))) = true
        /\ pageCount st' = S (pageCount st))
    /\ (ok = false ->
        accepted (up (requests w + (k - 1))) = false
        /\ k = S maxRetries - retryCount /\ st' = st).
Proof.
  induction fuel as [|fuel IH]; intros retryCount w Hle Hfuel; [simpl in Hfuel; lia|].
  cbn [retryLoop].
  assert (Hg : (retryCount <=? maxRetries)%nat = true) by now apply Nat.leb_le.
  rewrite Hg.
  destruct (attempt_eq up st w) as (w2 & -> & Hreq & _).
  destruct (onResponse (up (requests w)) st) as [st'|error] eqn:Hresp.
  - apply onResponse_Normal in Hresp. destruct Hresp as (Hacc & _ & Hall & Hpc).
    exists true, st', w2, 1. change (1 - 1) with 0. rewrite Nat.add_0_r.
    split; [reflexivity|]. split; [lia|]. split; [lia|].
    split; [rewrite Hall; unfold collected; simpl; now rewrite app_nil_r|].
    split; [intros n Hn; lia|].
    split; [intros _; now split | discriminate].
  - apply onResponse_Throw in Hresp. destruct Hresp as (Hacc & _ & Hpage).
    destruct (Nat.lt_ge_cases retryCount maxRetries) as [Hlt|Hge].
    + rewrite (onError_retry _ Hlt).
      destruct (IH (S retryCount) (delay (backoffBase (errorMessageOf error) * N.of_nat (S retryCount))%N w2))
        as (ok & st' & w' & k & Hrun & Hreq' & Hk & Hall & Hfail & Hok & Hko);
        [lia | lia |].
      unfold delay in Hreq', Hall, Hfail, Hok, Hko.
      cbn [requests] in Hreq', Hall, Hfail, Hok, Hko. rewrite Hreq in *.
      exists ok, st', w', (S k). rewrite Hrun.
      replace (S k - 1) with (S (k - 1)) by lia.
      split; [reflexivity|]. split; [lia|]. split; [lia|].
      split; [rewrite collected_step, Hpage; exact Hall|].
      split; [|split].
      * intros n Hn. destruct (Nat.eq_dec n (requests w)) as [->|Hne]; [assumption|].
        apply Hfail. lia.
      * intros Htrue. destruct (Hok Htrue) as [Ha Hp].
        replace (requests w + S (k - 1)) with (S (requests w) + (k - 1)) by lia.
        now split.
      * intros Hfalse. destruct (Hko Hfalse) as (Ha & Hk' & Hst).
        replace (requests w + S (k - 1)) with (S (requests w) + (k - 1)) by lia.
        repeat split; [assumption | lia | assumption].
    + rewrite (onError_break _ Hge).
      exists false, st, w2, 1. change (1 - 1) with 0. rewrite Nat.add_0_r.
      split; [reflexivity|]. split; [lia|]. split; [lia|].
      split; [unfold collected; simpl; now rewrite Hpage, app_nil_r|].
      split; [intros n Hn; lia|].
      split; [discriminate|]. intros _. split; [assumption|]. split; [lia | reflexivity].
Qed.

(** What the pagination loop does: it ends, with at most [MAX_PAGES] pages,
    holding the orders of every response it received. *)
Lemma pageLoop_spec up : forall fuel st w,
  MAX_PAGES <= fuel + pageCount st ->
  exists st' w' k,
    pageLoop fuel up st w = Some (st', w')
    /\ requests w' = requests w + k
    /\ allOrders st' = allOrders st ++ collected up (requests w) k
    /\ pageCount st <= pageCount st'
    /\ (pageCount st <= MAX_PAGES -> pageCount st' <= MAX_PAGES).
Proof.
  induction fuel as [|fuel IH]; intros st w Hfuel.
  - cbn [pageLoop]. simpl in Hfuel.
    assert (Hg : (pageCount st <? MAX_PAGES)%nat = false) by now apply Nat.ltb_ge.
    rewrite Hg, andb_false_r.
    exists st, w, 0. unfold collected. simpl. rewrite app_nil_r, Nat.add_0_r. auto.
  - cbn [pageLoop].
    destruct (hasNextPage st && (pageCount st <? MAX_PAGES)%nat) eqn:Hg.
    + apply andb_true_iff in Hg. destruct Hg as [_ Hlt]. apply Nat.ltb_lt in Hlt.
      destruct (@retryLoop_spec up st (S maxRetries) 0 w)
        as (ok & st1 & w1 & k1 & Hrun & Hreq & Hk & Hall & _ & Hok & Hko);
        [lia | lia |].
      rewrite Hrun. destruct ok.
      * destruct (Hok eq_refl) as [_ Hpc].
        destruct (IH st1 w1) as (st' & w' & k & Hloop & Hreq' & Hall' & Hpc1 & Hpc2);
          [lia|].
        exists st', w', (k1 + k). rewrite Hloop.
        split; [reflexivity|]. split; [lia|].
        split; [|split; [lia|intros _; apply Hpc2; lia]].
        rewrite Hall', Hall, collected_app, Hreq. now rewrite app_assoc.
      * destruct (Hko eq_refl) as (_ & _ & ->).
        exists st, w1, k1. auto.
    + exists st, w, 0. unfold collected. simpl. rewrite app_nil_r, Nat.add_0_r. auto.
Qed.

Lemma fetchOrders_spec up :
  exists st w,
    fetchOrders up = Some (st, w)
    /\ allOrders st = collected up 0 (requests w)
    /\ pageCount st <= MAX_PAGES.
Proof.
  unfold fetchOrders.
  destruct (@pageLoop_spec up MAX_PAGES fetchState0 world0)
    as (st & w & k & Hrun & Hreq & Hall & _ & Hpc); [apply Nat.le_add_r|].
  exists st, w. rewrite Hrun. simpl in Hreq, Hall. subst k.
  split; [reflexivity|]. split; [exact Hall|]. apply Hpc. apply Nat.le_0_l.
Qed.

Lemma first_page_failure up :
  firstPageExhausted up ->
  exists w, fetchOrders up = Some (fetchState0, w) /\ requests w = S maxRetries.
Proof.
  intros Hfail. unfold fetchOrders.
  change MAX_PAGES with (S 19). cbn [pageLoop]. simpl (hasNextPage _ && _).
  destruct (@retryLoop_spec up fetchState0 (S maxRetries) 0 world0)
    as (ok & st1 & w1 & k1 & Hrun & Hreq & Hk & _ & _ & Hok & Hko); [lia | lia |].
  rewrite Hrun. destruct ok.
  - destruct (Hok eq_refl) as [Hacc _]. simpl in Hacc.
    rewrite Hfail in Hacc; [discriminate | lia].
  - destruct (Hko eq_refl) as (_ & Hk1 & ->). exists w1. split; [reflexivity|].
    simpl in Hreq. lia.
Qed.

End FetchFacts.

(** ** Failures of the fetch stage *)

Section FailureFacts.

Context {N : JsNumber}.

Implicit Types (up : Upstream N) (st : FetchState N) (w : World) (resp : Response N).

Lemma thrown_onResponse resp st (m : string) :
  thrownMessage resp = Some m ->
  exists error, onResponse resp st = Throw error /\ errorMessageOf error = m.
Proof.
  unfold thrownMessage, onResponse.
  destruct resp as [e|d].
  - intros [= <-]. now exists e.
  - destruct (errors d) as [|m' ms].
    + destruct (dataOrders d); [discriminate|]. intros [= <-].
      eexists. split; reflexivity.
    + destruct (includes m' "Throttled"); intros [= <-]; eexists; split; reflexivity.
Qed.

(** A failed attempt that is not the last one: the wait, then the next turn. *)
Lemma retryLoop_failed_attempt (fuel : nat) up st (retryCount : nat) w (m : string) :
  retryCount < maxRetries ->
  thrownMessage (up (requests w)) = Some m ->
  exists w1,
    retryLoop (S fuel) up st retryCount w = retryLoop fuel up st (S retryCount) w1
    /\ requests w1 = S (requests w)
    /\ effects w1
       = effects w ++ pacing st
         ++ [Graphql (cursor st); Delay (backoffBase m * N.of_nat (S retryCount))%N].
Proof.
  intros Hlt Hm. cbn [retryLoop].
  assert (Hg : (retryCount <=? maxRetries)%nat = true) by (apply Nat.leb_le; lia).
  rewrite Hg.
  destruct (attempt_eq up st w) as (w2 & -> & Hreq & Heff).
  destruct (thrown_onResponse (up (requests w)) st Hm) as (error & -> & Hmsg).
  rewrite Hmsg, (onError_retry _ Hlt).
  eexists. split; [reflexivity|]. split; [exact Hreq|].
  unfold delay. cbn [effects]. rewrite Heff. unfold pacing.
  now rewrite <- !app_assoc.
Qed.

(** The attempt made with the retries used up ends the loop either way. *)
Lemma retryLoop_last_attempt (fuel : nat) up st w :
  exists ok st' w1,
    retryLoop (S fuel) up st maxRetries w = Some (ok, st', w1)
    /\ requests w1 = S (requests w)
    /\ effects w1 = effects w ++ pacing st ++ [Graphql (cursor st)]
    /\ ok = accepted (up (requests w)).
Proof.
  cbn [retryLoop]. rewrite Nat.leb_refl.
  destruct (attempt_eq up st w) as (w2 & -> & Hreq & Heff).
  destruct (onResponse (up (requests w)) st) as [st'|error] eqn:Hresp.
  - apply onResponse_Normal in Hresp. destruct Hresp as (Hacc & _).
    exists true, st', w2. now rewrite Hacc.
  - apply onResponse_Throw in Hresp. destruct Hresp as (Hacc & _).
    rewrite (onError_break _ (Nat.le_refl maxRetries)).
    exists false, st, w2. now rewrite Hacc.
Qed.

(** C1, as the code has it. The fetch stage never fails the pipeline.
    Whatever the upstream does, the loops end (with at most twenty pages) and
    [loader] goes on to the summary of the orders collected, which are the
    pages of all the responses that were accepted, in the order received.
    When the first page cannot be fetched this is the summary of the empty
    sequence. *)
Theorem fetch_failure_degrades_to_partial up :
  exists st w,
    fetchOrders up = Some (st, w)
    /\ loader up = Some (Normal (processAnalyticsData (allOrders st)))
    /\ allOrders st = collected up 0 (requests w)
    /\ pageCount st <= MAX_PAGES
    /\ ~ pipelineFails up
    /\ (firstPageExhausted up ->
        allOrders st = []
        /\ loader up = Some (Normal (processAnalyticsData []))).
Proof.
  destruct (fetchOrders_spec up) as (st & w & Hrun & Hall & Hpc).
  assert (Hload : loader up
                  = Some (Normal (processAnalyticsData (allOrders st)))).
  { unfold loader. now rewrite Hrun. }
  exists st, w.
  split; [exact Hrun|]. split; [exact Hload|]. split; [exact Hall|].
  split; [exact Hpc|]. split.
  - intros [error Herr]. rewrite Hload in Herr. discriminate Herr.
  - intros Hfirst. destruct (first_page_failure Hfirst) as (w0 & Hrun0 & _).
    rewrite Hrun in Hrun0. injection Hrun0 as -> _.
    split; [reflexivity | exact Hload].
Qed.

(** C2, as the code has it. Every failure of a page fetch is retried,
    whatever its class: while fewer than three retries have been made the
    [catch] block waits and lets the loop go round again, and it gives up only
    with the retries used up.  A page is therefore abandoned exactly when four
    requests in a row have failed for it, and on an accepted response the loop
    stops asking. *)
Theorem every_failure_is_retried :
  (forall errorMessage retryCount,
     retryCount < maxRetries ->
     exists waitTime, onError errorMessage retryCount = Retry (S retryCount) waitTime)
  /\ (forall errorMessage retryCount,
        maxRetries <= retryCount -> onError errorMessage retryCount = Break)
  /\ (forall up st w,
        exists ok st' w' k,
          retryLoop (S maxRetries) up st 0 w = Some (ok, st', w')
          /\ requests w' = requests w + k
          /\ 1 <= k <= S maxRetries
          /\ (forall n, requests w <= n < requests w + (k - 1) ->
                        accepted (up n) = false)
          /\ (ok = true -> accepted (up (requests w + (k - 1))) = true)
          /\ (ok = false ->
              accepted (up (requests w + (k - 1))) = false
              /\ k = S maxRetries /\ st' = st)).
Proof.
  split; [|split].
  - intros errorMessage retryCount Hlt. eexists. now apply onError_retry.
  - apply onError_break.
  - intros up st w.
    destruct (@retryLoop_spec N up st (S maxRetries) 0 w)
      as (ok & st' & w' & k & Hrun & Hreq & Hk & _ & Hfail & Hok & Hko); [lia | lia |].
    exists ok, st', w', k.
    split; [exact Hrun|]. split; [exact Hreq|]. split; [lia|].
    split; [exact Hfail|]. split.
    + intros H. now destruct (Hok H).
    + intros H. destruct (Hko H) as (Ha & Hk' & Hst). repeat split; [assumption | lia | assumption].
Qed.

(** C4, as the code has it. The wait before the retry numbered n (1, 2 or
    3) is base times n.  The base is 4000 ms for a message with "Throttled" or
    "fetch failed" in it, a throttling signal and the network failure of
    [fetch] alike, and 3000 ms for any other failure; so the base of a
    throttling failure is strictly larger than that of a failure of the other
    class only.  On a page whose first three attempts fail the trace is the
    four requests with the three waits between them. *)
Theorem backoff_is_linear :
  (forall errorMessage retryCount,
     retryCount < maxRetries ->
     onError errorMessage retryCount
     = Retry (S retryCount) (backoffBase errorMessage * N.of_nat (S retryCount))%N)
  /\ (forall errorMessage,
        includes errorMessage "Throttled" = true
        \/ includes errorMessage "fetch failed" = true ->
        backoffBase errorMessage = 4000%N)
  /\ (forall errorMessage,
        includes errorMessage "Throttled" = false ->
        includes errorMessage "fetch failed" = false ->
        backoffBase errorMessage = 3000%N)
  /\ (forall up st w m1 m2 m3,
        thrownMessage (up (requests w)) = Some m1 ->
        thrownMessage (up (requests w + 1)) = Some m2 ->
        thrownMessage (up (requests w + 2)) = Some m3 ->
        exists ok st' w',
          retryLoop (S maxRetries) up st 0 w = Some (ok, st', w')
          /\ effects w'
             = effects w
               ++ pacing st ++ [Graphql (cursor st); Delay (backoffBase m1 * 1)%N]
               ++ pacing st ++ [Graphql (cursor st); Delay (backoffBase m2 * 2)%N]
               ++ pacing st ++ [Graphql (cursor st); Delay (backoffBase m3 * 3)%N]
               ++ pacing st ++ [Graphql (cursor st)]).
Proof.
  split; [|split; [|split]].
  - intros errorMessage retryCount Hlt. now apply onError_retry.
  - intros errorMessage H. unfold backoffBase, isTransient.
    destruct H as [-> | ->]; [reflexivity | now rewrite orb_true_r].
  - intros errorMessage H1 H2. unfold backoffBase, isTransient. now rewrite H1, H2.
  - intros up st w m1 m2 m3 H1 H2 H3.
    change (S maxRetries) with 4.
    destruct (@retryLoop_failed_attempt 3 up st 0 w m1) as (w1 & -> & Hr1 & He1);
      [unfold maxRetries; lia | exact H1 |].
    rewrite Nat.add_1_r, <- Hr1 in H2.
    destruct (@retryLoop_failed_attempt 2 up st 1 w1 m2) as (w2 & -> & Hr2 & He2);
      [unfold maxRetries; lia | exact H2 |].
    replace (requests w + 2) with (requests w2) in H3 by lia.
    destruct (@retryLoop_failed_attempt 1 up st 2 w2 m3) as (w3 & -> & Hr3 & He3);
      [unfold maxRetries; lia | exact H3 |].
    destruct (retryLoop_last_attempt 0 up st w3) as (ok & st' & w4 & Hrun & _ & He4 & _).
    exists ok, st', w4. split; [exact Hrun|].
    rewrite He4, He3, He2, He1. now rewrite <- !app_assoc.
Qed.

End FailureFacts.

(** C1, as stated, fails: with the upstream down the first page cannot be
    fetched, and [loader] still returns a summary, that of no orders. *)
Lemma first_page_failure_is_not_fatal :
  firstPageExhausted upDown
  /\ loader upDown = Some (Normal (processAnalyticsData []))
  /\ ~ (pipelineFails upDown <-> firstPageExhausted upDown).
Proof.
  assert (Hfirst : firstPageExhausted upDown) by (intros n _; reflexivity).
  assert (Hrun : loader upDown = Some (Normal (processAnalyticsData [])))
    by (vm_compute; reflexivity).
  split; [exact Hfirst|]. split; [exact Hrun|].
  intros [_ H]. destruct (H Hfirst) as [error Herr].
  rewrite Hrun in Herr. discriminate Herr.
Qed.

Lemma fetch_failure_degrades_to_partial_witness :
  loader upMalformed = Some (Normal (processAnalyticsData [])).
Proof.
  destruct (fetch_failure_degrades_to_partial upMalformed)
    as (st & w & _ & _ & _ & _ & _ & Hfirst).
  apply Hfirst. intros n _. reflexivity.
Defined.

(** C2, as stated, fails: a response without [data.orders] is not a
    transient failure, and the request is made four times all the same, with
    waits of 3, 6 and 9 seconds. *)
Lemma malformed_response_is_retried :
  thrownMessage (upMalformed 0) = Some "Invalid GraphQL response structure"
  /\ isTransient "Invalid GraphQL response structure" = false
  /\ onError "Invalid GraphQL response structure" 0 = Retry 1 3000%N
  /\ option_map (fun r => effects (snd r)) (fetchOrders upMalformed)
     = Some [ Graphql None; Delay 3000%N; Graphql None; Delay 6000%N;
              Graphql None; Delay 9000%N; Graphql None ].
Proof. repeat split; vm_compute; reflexivity. Qed.

Lemma every_failure_is_retried_witness :
  exists waitTime,
    onError "Invalid GraphQL response structure" 2 = Retry 3 waitTime.
Proof.
  destruct (@every_failure_is_retried float64) as (Hretry & _).
  apply Hretry. unfold maxRetries. lia.
Defined.

(** C4, as stated, fails: a throttling signal and the network failure of
    [fetch] wait the same 4 seconds, so the base of the former is not the
    larger one. *)
Lemma throttling_and_network_share_base :
  onError "Throttled" 0 = Retry 1 4000%N
  /\ onError "fetch failed" 0 = Retry 1 4000%N
  /\ ~ (backoffBase "fetch failed" < backoffBase "Throttled")%N.
Proof.
  split; [reflexivity|]. split; [reflexivity|].
  intros H. apply (N.lt_irrefl _ H).
Qed.

Lemma backoff_is_linear_witness :
  exists ok st' w',
    retryLoop (S maxRetries) upThrottled fetchState0 0 world0 = Some (ok, st', w')
    /\ effects w'
       = [ Graphql None; Delay 4000%N; Graphql None; Delay 8000%N;
           Graphql None; Delay 12000%N; Graphql None ].
Proof.
  destruct (@backoff_is_linear float64) as (_ & _ & _ & Htrace).
  apply (Htrace upThrottled fetchState0 world0 "Throttled" "Throttled" "Throttled");
    reflexivity.
Defined.

(** * Further properties *)

(** ** The run of the fetch stage *)

Section RunFacts.

Context {N : JsNumber}.

Implicit Types (up : Upstream N) (st : FetchState N) (w : World) (resp : Response N).

Lemma onResponse_Normal_page resp st st' :
  onResponse resp st = Normal st' ->
  cursor st' = cursorOf resp /\ hasNextPage st' = moreOf resp.
Proof.
  unfold onResponse, cursorOf, moreOf.
  destruct resp as [e|d]; [discriminate|].
  destruct (errors d) as [|m ms].
  - destruct (dataOrders d) as [conn|]; [|discriminate].
    intros [= <-]. simpl. split; reflexivity.
  - destruct (includes m "Throttled"); discriminate.
Qed.

Lemma replay_step_accepted up (i : nat) :
  accepted (up i) = true ->
  exists st', onResponse (up i) (replay up i) = Normal st' /\ replay up (S i) = st'.
Proof.
  intros Hacc. cbn [replay].
  destruct (onResponse (up i) (replay up i)) as [st'|error] eqn:E.
  - now exists st'.
  - apply onResponse_Throw in E. destruct E as (E & _). congruence.
Qed.

Lemma replay_step_failed up (i : nat) :
  accepted (up i) = false -> replay up (S i) = replay up i.
Proof.
  intros Hacc. cbn [replay].
  destruct (onResponse (up i) (replay up i)) as [st'|error] eqn:E; [|reflexivity].
  apply onResponse_Normal in E. destruct E as (E & _). congruence.
Qed.

(** The loop variables are what the responses say. *)
Lemma replay_state up (n : nat) :
  pageCount (replay up n) = acceptedBefore up n
  /\ cursor (replay up n) = latestCursor up n
  /\ hasNextPage (replay up n) = moreAfter up n
  /\ allOrders (replay up n) = collected up 0 n.
Proof.
  induction n as [|i (IHp & IHc & IHm & IHa)]; [repeat split|].
  cbn [acceptedBefore latestCursor moreAfter].
  replace (collected up 0 (S i)) with (collected up 0 i ++ pageOf (up i)).
  2:{ change (S i) with (1 + i). rewrite Nat.add_comm, collected_app.
      unfold collected at 3. simpl. now rewrite app_nil_r. }
  destruct (accepted (up i)) eqn:Hacc.
  - destruct (replay_step_accepted up i Hacc) as (st' & Hresp & ->).
    destruct (onResponse_Normal _ _ Hresp) as (_ & _ & Hall & Hpc).
    destruct (onResponse_Normal_page _ _ Hresp) as (Hcur & Hmore).
    rewrite Hpc, Hcur, Hmore, Hall, IHp, IHa. repeat split.
  - rewrite (replay_step_failed up i Hacc).
    assert (Hpage : pageOf (up i) = []).
    { destruct (onResponse (up i) (replay up i)) as [st'|error] eqn:E.
      - apply onResponse_Normal in E. destruct E as (E & _). congruence.
      - apply onResponse_Throw in E. now destruct E as (_ & _ & E). }
    rewrite Hpage, app_nil_r. repeat split; assumption.
Qed.

Lemma acceptedBefore_le up (n : nat) : acceptedBefore up n <= n.
Proof.
  induction n as [|i IH]; simpl; [lia|]. destruct (accepted (up i)); lia.
Qed.

Lemma attempt_segment up st w :
  st = replay up (requests w) ->
  exists w',
    attempt up st w = (onResponse (up (requests w)) st, w')
    /\ requests w' = S (requests w)
    /\ effects w'
       = effects w
         ++ (if (0 <? acceptedBefore up (requests w))%nat then [Delay 1500%N] else [])
         ++ [Graphql (latestCursor up (requests w))].
Proof.
  intros ->. destruct (attempt_eq up (replay up (requests w)) w) as (w' & Hrun & Hreq & Heff).
  exists w'. split; [exact Hrun|]. split; [exact Hreq|].
  destruct (replay_state up (requests w)) as (Hp & Hc & _).
  now rewrite Heff, Hp, Hc.
Qed.

(** One run of the retry loop, request by request. *)
Lemma retryLoop_run up st : forall fuel retryCount w,
  st = replay up (requests w) ->
  retryCount = failsBefore up (requests w) ->
  stops up (requests w) = false ->
  maxRetries < fuel + retryCount ->
  exists ok w' k,
    retryLoop fuel up st retryCount w = Some (ok, replay up (requests w'), w')
    /\ requests w' = requests w + k
    /\ 1 <= k <= S maxRetries - retryCount
    /\ effects w' = effects w ++ flat_map (segment up) (seq (requests w) k)
    /\ (forall i, requests w <= i < requests w + k -> stops up i = false)
    /\ (ok = true -> failsBefore up (requests w') = 0)
    /\ (ok = false -> failsBefore up (requests w') = S maxRetries).
Proof.
  induction fuel as [|fuel IH]; intros retryCount w Hst Hrc Hgo Hfuel.
  - exfalso. unfold stops in Hgo. apply orb_false_iff in Hgo. destruct Hgo as [_ Hgo].
    apply Nat.ltb_ge in Hgo. simpl in Hfuel. lia.
  - assert (Hle : retryCount <= maxRetries).
    { unfold stops in Hgo. apply orb_false_iff in Hgo. destruct Hgo as [_ Hgo].
      apply Nat.ltb_ge in Hgo. lia. }
    cbn [retryLoop].
    assert (Hg : (retryCount <=? maxRetries)%nat = true) by now apply Nat.leb_le.
    rewrite Hg.
    destruct (attempt_segment up w Hst) as (w2 & -> & Hreq & Heff).
    assert (Hseg : forall tail,
               segment up (requests w)
               = (if (0 <? acceptedBefore up (requests w))%nat then [Delay 1500%N] else [])
                 ++ [Graphql (latestCursor up (requests w))] ++ tail ->
               effects w2 ++ tail = effects w ++ segment up (requests w)).
    { intros tail ->. rewrite Heff. now rewrite <- !app_assoc. }
    destruct (onResponse (up (requests w)) st) as [st'|error] eqn:Hresp.
    + assert (Hacc : accepted (up (requests w)) = true)
        by (apply onResponse_Normal in Hresp; tauto).
      assert (Hthrown : thrownMessage (up (requests w)) = None)
        by (apply onResponse_Normal in Hresp; tauto).
      assert (Hnext : replay up (S (requests w)) = st').
      { destruct (replay_step_accepted up (requests w) Hacc) as (st2 & H2 & ->).
        rewrite Hst in Hresp. congruence. }
      exists true, w2, 1. rewrite Hreq, Hnext.
      split; [reflexivity|]. split; [lia|]. split; [lia|].
      split; [|split; [|split]].
      * simpl. rewrite app_nil_r. rewrite <- (app_nil_r (effects w2)).
        apply Hseg. unfold segment. now rewrite Hthrown.
      * intros i Hi. replace i with (requests w) by lia. exact Hgo.
      * intros _. simpl. now rewrite Hacc.
      * discriminate.
    + assert (Hacc : accepted (up (requests w)) = false)
        by (apply onResponse_Throw in Hresp; tauto).
      assert (Hthrown : thrownMessage (up (requests w)) = Some (errorMessageOf error))
        by (apply onResponse_Throw in Hresp; tauto).
      assert (Hnext : replay up (S (requests w)) = st)
        by (rewrite (replay_step_failed up _ Hacc); now symmetry).
      assert (Hfails : failsBefore up (S (requests w)) = S retryCount)
        by (simpl; rewrite Hacc; congruence).
      destruct (Nat.lt_ge_cases retryCount maxRetries) as [Hlt|Hge].
      * rewrite (onError_retry _ Hlt).
        set (w3 := delay (backoffBase (errorMessageOf error) * N.of_nat (S retryCount))%N w2).
        assert (Hreq3 : requests w3 = S (requests w)) by exact Hreq.
        assert (Hgo3 : stops up (requests w3) = false).
        { rewrite Hreq3. unfold stops in *. cbn [moreAfter acceptedBefore].
          rewrite Hacc, Hfails.
          apply orb_false_iff in Hgo. destruct Hgo as [Hgo _]. rewrite Hgo. simpl.
          apply Nat.ltb_ge. lia. }
        destruct (IH (S retryCount) w3) as (ok & w' & k & Hrun & Hreq' & Hk & Heff' & Hcont & Hok & Hko);
          [rewrite Hreq3; now symmetry | rewrite Hreq3; now symmetry | exact Hgo3 | lia |].
        exists ok, w', (S k). rewrite Hrun.
        split; [reflexivity|]. split; [lia|]. split; [lia|].
        split; [|split; [|split]].
        -- rewrite Heff', Hreq3. cbn [seq flat_map].
           rewrite app_assoc. f_equal.
           unfold w3, delay. cbn [effects]. apply Hseg.
           unfold segment. rewrite Hthrown, Hrc.
           assert (Hb : (failsBefore up (requests w) <? maxRetries)%nat = true)
             by (apply Nat.ltb_lt; lia).
           now rewrite Hb.
        -- intros i Hi. destruct (Nat.eq_dec i (requests w)) as [->|Hne]; [exact Hgo|].
           apply Hcont. rewrite Hreq3. lia.
        -- exact Hok.
        -- exact Hko.
      * rewrite (onError_break _ Hge).
        exists false, w2, 1. rewrite Hreq, Hnext.
        split; [reflexivity|]. split; [lia|]. split; [lia|].
        split; [|split; [|split]].
        -- simpl. rewrite app_nil_r. rewrite <- (app_nil_r (effects w2)).
           apply Hseg. unfold segment. rewrite Hthrown, <- Hrc.
           assert (Hb : (retryCount <? maxRetries)%nat = false) by now apply Nat.ltb_ge.
           now rewrite Hb.
        -- intros i Hi. replace i with (requests w) by lia. exact Hgo.
        -- discriminate.
        -- intros _. rewrite Hfails. lia.
Qed.

(** The pagination loop, request by request: it goes on while no stop
    condition holds and ends at the first that does. *)
Lemma pageLoop_run up : forall fuel st w,
  st = replay up (requests w) ->
  failsBefore up (requests w) = 0 ->
  MAX_PAGES <= fuel + pageCount st ->
  exists w' k,
    pageLoop fuel up st w = Some (replay up (requests w'), w')
    /\ requests w' = requests w + k
    /\ effects w' = effects w ++ flat_map (segment up) (seq (requests w) k)
    /\ (forall i, requests w <= i < requests w + k -> stops up i = false)
    /\ stops up (requests w') = true
    /\ k <= S maxRetries * (MAX_PAGES - pageCount st).
Proof.
  induction fuel as [|fuel IH]; intros st w Hst Hfails Hfuel.
  - cbn [pageLoop]. simpl in Hfuel.
    assert (Hg : (pageCount st <? MAX_PAGES)%nat = false) by now apply Nat.ltb_ge.
    rewrite Hg, andb_false_r.
    exists w, 0. rewrite Nat.add_0_r, <- Hst. simpl. rewrite app_nil_r.
    split; [reflexivity|]. split; [reflexivity|]. split; [reflexivity|].
    split; [intros i Hi; lia|]. split; [|lia].
    unfold stops. destruct (replay_state up (requests w)) as (Hp & _).
    rewrite <- Hp, <- Hst.
    assert (Hcap : (MAX_PAGES <=? pageCount st)%nat = true) by now apply Nat.leb_le.
    rewrite Hcap. now rewrite orb_true_r.
  - cbn [pageLoop].
    destruct (replay_state up (requests w)) as (Hp & _ & Hm & _).
    rewrite <- Hst in Hp, Hm.
    destruct (hasNextPage st && (pageCount st <? MAX_PAGES)%nat) eqn:Hg.
    + apply andb_true_iff in Hg. destruct Hg as [Hmore Hlt]. apply Nat.ltb_lt in Hlt.
      assert (Hgo : stops up (requests w) = false).
      { unfold stops. rewrite <- Hm, <- Hp, Hmore, Hfails.
        assert (Hcap : (MAX_PAGES <=? pageCount st)%nat = false) by now apply Nat.leb_gt.
        rewrite Hcap. reflexivity. }
      destruct (@retryLoop_run up st (S maxRetries) 0 w Hst (eq_sym Hfails) Hgo)
        as (ok & w1 & k1 & Hrun & Hreq & Hk & Heff & Hcont & Hok & Hko); [lia|].
      rewrite Hrun. destruct ok.
      * assert (Hpc : pageCount (replay up (requests w1)) = S (pageCount st)).
        { destruct (@retryLoop_spec N up st (S maxRetries) 0 w)
            as (ok' & st' & w' & k' & Hrun' & _ & _ & _ & _ & Hok' & Hko'); [lia | lia |].
          rewrite Hrun in Hrun'. injection Hrun' as <- <- <-.
          now destruct (Hok' eq_refl). }
        destruct (IH (replay up (requests w1)) w1 eq_refl (Hok eq_refl))
          as (w' & k & Hloop & Hreq' & Heff' & Hcont' & Hstop & Hk'); [lia|].
        exists w', (k1 + k). rewrite Hloop.
        split; [reflexivity|]. split; [lia|].
        split; [|split; [|split]].
        -- rewrite Heff', Heff, seq_app, flat_map_app, Hreq. now rewrite app_assoc.
        -- intros i Hi. destruct (Nat.lt_ge_cases i (requests w + k1)) as [Hlo|Hhi].
           ++ apply Hcont. lia.
           ++ apply Hcont'. lia.
        -- exact Hstop.
        -- rewrite Hpc in Hk'.
           replace (MAX_PAGES - pageCount st) with (S (MAX_PAGES - S (pageCount st))) by lia.
           rewrite Nat.mul_succ_r. lia.
      * exists w1, k1.
        split; [reflexivity|]. split; [exact Hreq|]. split; [exact Heff|].
        split; [exact Hcont|]. split.
        -- unfold stops. rewrite (Hko eq_refl).
           assert (Hb : (maxRetries <? S maxRetries)%nat = true) by (apply Nat.ltb_lt; lia).
           rewrite Hb. now rewrite orb_true_r.
        -- replace (MAX_PAGES - pageCount st) with (S (MAX_PAGES - S (pageCount st))) by lia.
           rewrite Nat.mul_succ_r.
           apply Nat.le_trans with (S maxRetries); [lia | apply Nat.le_add_l].
    + exists w, 0. rewrite Nat.add_0_r, <- Hst. simpl. rewrite app_nil_r.
      split; [reflexivity|]. split; [reflexivity|]. split; [reflexivity|].
      split; [intros i Hi; lia|]. split; [|lia].
      unfold stops. rewrite <- Hm, <- Hp.
      apply andb_false_iff in Hg. destruct Hg as [Hg|Hg].
      * now rewrite Hg.
      * apply Nat.ltb_ge in Hg.
        assert (Hcap : (MAX_PAGES <=? pageCount st)%nat = true) by now apply Nat.leb_le.
        rewrite Hcap. now rewrite orb_true_r.
Qed.

(** The whole fetch stage in terms of the responses. *)
Lemma fetchOrders_run up :
  exists w,
    fetchOrders up = Some (replay up (requests w), w)
    /\ effects w = flat_map (segment up) (seq 0 (requests w))
    /\ (forall i, i < requests w -> stops up i = false)
    /\ stops up (requests w) = true
    /\ requests w <= S maxRetries * MAX_PAGES.
Proof.
  unfold fetchOrders.
  destruct (@pageLoop_run up MAX_PAGES fetchState0 world0 eq_refl eq_refl)
    as (w & k & Hrun & Hreq & Heff & Hcont & Hstop & Hk); [apply Nat.le_add_r|].
  simpl in Hreq, Heff, Hcont. subst k.
  exists w. split; [exact Hrun|]. split; [exact Heff|].
  split; [intros i Hi; apply Hcont; lia|]. split; [exact Hstop|].
  exact Hk.
Qed.

End RunFacts.

Section RunTheorems.

Context {N : JsNumber}.

Implicit Types (up : Upstream N).

(** X1. The trace of the fetch stage, request by request.  Before a request
    comes the pacing delay of 1500 ms when, and only when, a page has been
    accepted before it, retries included; the request carries the cursor of
    the last accepted response, or none; and after a request that fails
    comes the wait of base times (failures in a row so far), unless it is the
    fourth failure in a row.  Nothing else is done. *)
Theorem fetch_trace_by_request up :
  exists st w,
    fetchOrders up = Some (st, w)
    /\ effects w = flat_map (segment up) (seq 0 (requests w)).
Proof.
  destruct (fetchOrders_run up) as (w & Hrun & Heff & _).
  now exists (replay up (requests w)), w.
Qed.

(** X2. Cursor discipline: the requests made are, in order, one per
    response received, and the request numbered i carries the end cursor of
    the last response accepted before it (no cursor when there is none, or
    when that response has no end cursor or an empty one); a retry therefore
    repeats the cursor of the attempt that failed. *)
Theorem requests_carry_latest_cursor up :
  exists st w,
    fetchOrders up = Some (st, w)
    /\ filter isGraphql (effects w)
       = map (fun i => Graphql (latestCursor up i)) (seq 0 (requests w))
    /\ (forall i, accepted (up i) = false ->
                  latestCursor up (S i) = latestCursor up i).
Proof.
  destruct (fetchOrders_run up) as (w & Hrun & Heff & _).
  exists (replay up (requests w)), w. split; [exact Hrun|]. split.
  - rewrite Heff. generalize (seq 0 (requests w)) as l.
    induction l as [|i l IH]; [reflexivity|].
    cbn [flat_map map]. rewrite filter_app, IH. f_equal.
    unfold segment. rewrite !filter_app.
    destruct (0 <? acceptedBefore up i)%nat, (thrownMessage (up i)) as [m|];
      try destruct (failsBefore up i <? maxRetries)%nat; reflexivity.
  - intros i Hi. simpl. now rewrite Hi.
Qed.

(** X3. The fetch stage goes on exactly until the first moment at which a
    stop condition holds: the last accepted response says there is no next
    page, or [MAX_PAGES] pages are in, or a request has failed four times in
    a row.  Before that moment it never stops, and at that moment it does. *)
Theorem fetch_stops_at_first_stop_condition up :
  exists st w,
    fetchOrders up = Some (st, w)
    /\ stops up (requests w) = true
    /\ (forall i, i < requests w -> stops up i = false).
Proof.
  destruct (fetchOrders_run up) as (w & Hrun & _ & Hcont & Hstop & _).
  now exists (replay up (requests w)), w.
Qed.

(** X4. Bounds of the fetch stage: it makes at most 80 requests (four for
    each of at most twenty pages); the page count it ends with is the number
    of accepted responses, a failed attempt not being a page; and the loop
    variables it ends with are those of the last accepted response. *)
Theorem fetch_request_cap up :
  exists st w,
    fetchOrders up = Some (st, w)
    /\ requests w <= 80
    /\ pageCount st = acceptedBefore up (requests w)
    /\ pageCount st <= 20
    /\ cursor st = latestCursor up (requests w)
    /\ hasNextPage st = moreAfter up (requests w).
Proof.
  destruct (fetchOrders_run up) as (w & Hrun & _ & Hcont & _ & Hcap).
  destruct (replay_state up (requests w)) as (Hp & Hc & Hm & _).
  exists (replay up (requests w)), w.
  split; [exact Hrun|]. split; [exact Hcap|]. split; [exact Hp|].
  split; [|split; assumption].
  destruct (fetchOrders_spec up) as (st' & w' & Hrun' & _ & Hpc).
  rewrite Hrun in Hrun'. injection Hrun' as <- <-. exact Hpc.
Qed.

End RunTheorems.

(** ** Totals over the maps of the rollup *)

Lemma totalOf_set {V} (measure : V -> Z) (d : V) (m : JsMap V) (k : string) (v : V) :
  measure d = 0%Z ->
  totalOf measure (map_set m k v)
  = (totalOf measure m - measure (orElse (map_get m k) d) + measure v)%Z.
Proof.
  intros Hd. unfold totalOf.
  induction m as [|[k' v'] r IH]; simpl.
  - rewrite Hd. lia.
  - destruct (String.eqb k' k); simpl; [lia | rewrite IH; lia].
Qed.

Lemma totalOf_update {V} (measure : V -> Z) (d : string -> V) (m : JsMap V)
  (k : string) (f : V -> V) (c : Z) :
  measure (d k) = 0%Z ->
  (forall v, measure (f v) = (measure v + c)%Z) ->
  totalOf measure (map_update d m k f) = (totalOf measure m + c)%Z.
Proof.
  intros Hd Hf. unfold map_update.
  rewrite (totalOf_set measure (d k) m k _ Hd), Hf. lia.
Qed.

Lemma totalOf_steps {A V} (measure : V -> Z) (step : JsMap V -> A -> JsMap V)
  (gain : A -> Z) (l : list A) :
  (forall m x, totalOf measure (step m x) = (totalOf measure m + gain x)%Z) ->
  forall m,
    totalOf measure (fold_left step l m)
    = (totalOf measure m + fold_right Z.add 0%Z (map gain l))%Z.
Proof.
  intros Hstep. induction l as [|x l IH]; intros m; simpl; [lia|].
  rewrite IH, Hstep. lia.
Qed.

Lemma totalOf_nat {V} (f : V -> nat) (m : JsMap V) :
  totalOf (fun v => Z.of_nat (f v)) m
  = Z.of_nat (list_sum (map (fun e => f (snd e)) m)).
Proof.
  unfold totalOf. induction m as [|e m IH]; simpl; [reflexivity|].
  rewrite IH. lia.
Qed.

Lemma count_as_sum {A} (p : A -> bool) (l : list A) :
  fold_right Z.add 0%Z (map (fun x => if p x then 1%Z else 0%Z) l)
  = Z.of_nat (List.length (filter p l)).
Proof.
  induction l as [|x l IH]; [reflexivity|].
  cbn [map fold_right filter]. rewrite IH.
  destruct (p x); cbn [List.length]; lia.
Qed.

Lemma list_sum_perm (l l' : list nat) :
  Permutation l l' -> list_sum l = list_sum l'.
Proof.
  induction 1 as [|x l l' _ IH|x y l|l l' l'' _ IH1 _ IH2]; simpl; lia.
Qed.

Lemma list_sum_firstn (n : nat) (l : list nat) :
  list_sum (firstn n l) <= list_sum l.
Proof.
  revert n. induction l as [|x l IH]; intros [|n]; simpl; try lia.
  specialize (IH n). lia.
Qed.

Lemma NoDup_firstn {A} (n : nat) (l : list A) : NoDup l -> NoDup (firstn n l).
Proof.
  intros H. rewrite <- (firstn_skipn n l) in H. now apply NoDup_app_remove_r in H.
Qed.

Section TotalFacts.

Context {N : JsNumber}.

Lemma monthlyStep_total (m : JsMap (Stat N)) (o : Order N) :
  totalOf (fun s => Z.of_nat (orders s)) (monthlyStep m o)
  = (totalOf (fun s => Z.of_nat (orders s)) m + (if hasDate o then 1 else 0))%Z.
Proof.
  unfold monthlyStep, hasDate. destruct (processedAt o) as [d|]; [|lia].
  apply (totalOf_update (fun s : Stat N => Z.of_nat (orders s)) (fun _ => zeroStat)).
  - reflexivity.
  - intros v. simpl. lia.
Qed.

Lemma locationStep_total (m : JsMap (Stat N)) (o : Order N) :
  totalOf (fun s => Z.of_nat (orders s)) (locationStep m o)
  = (totalOf (fun s => Z.of_nat (orders s)) m + (if hasAddress o then 1 else 0))%Z.
Proof.
  unfold locationStep, hasAddress. destruct (shippingAddress o) as [city|]; [|lia].
  apply (totalOf_update (fun s : Stat N => Z.of_nat (orders s)) (fun _ => zeroStat)).
  - reflexivity.
  - intros v. simpl. lia.
Qed.

Lemma customerStep_total (m : JsMap nat) (o : Order N) :
  totalOf Z.of_nat (customerStep m o)
  = (totalOf Z.of_nat m + (if hasCustomer o then 1 else 0))%Z.
Proof.
  unfold customerStep, hasCustomer. destruct (customer o) as [c|]; [|lia].
  apply (totalOf_update Z.of_nat (fun _ => 0) m c (fun orderCount => orderCount + 1)).
  - reflexivity.
  - intros v. lia.
Qed.

Lemma itemStep_total (measure : ProductStat N -> Z) (gain : LineItem N -> Z)
  (m : JsMap (ProductStat N)) (i : LineItem N) :
  (forall key, measure (newProductStat key) = 0%Z) ->
  (forall stats, measure (bumpProduct i stats) = (measure stats + gain i)%Z) ->
  totalOf measure (itemStep m i)
  = (totalOf measure m + (if hasProduct i then gain i else 0))%Z.
Proof.
  intros Hnew Hbump. unfold itemStep, hasProduct.
  destruct (product i) as [prod|]; [|lia].
  apply (totalOf_update measure newProductStat); [apply Hnew | apply Hbump].
Qed.

Lemma sum_over_sold (gain : LineItem N -> Z) (items : list (LineItem N)) :
  fold_right Z.add 0%Z (map (fun i => if hasProduct i then gain i else 0%Z) items)
  = fold_right Z.add 0%Z (map gain (filter hasProduct items)).
Proof.
  induction items as [|i items IH]; [reflexivity|].
  cbn [map fold_right filter]. rewrite IH. destruct (hasProduct i); simpl; lia.
Qed.

Lemma productStats_total (measure : ProductStat N -> Z) (gain : LineItem N -> Z)
  (l : list (Order N)) :
  (forall key, measure (newProductStat key) = 0%Z) ->
  (forall i stats, measure (bumpProduct i stats) = (measure stats + gain i)%Z) ->
  totalOf measure (acc_productStats (finalAcc l))
  = fold_right Z.add 0%Z (map gain (soldItems l)).
Proof.
  intros Hnew Hbump. unfold finalAcc. rewrite fold_orderStep_product.
  assert (Hflat : forall m,
             fold_left productStep l m
             = fold_left itemStep (flat_map (@lineItems N) l) m).
  { induction l as [|o os IH]; intros m; simpl; [reflexivity|].
    now rewrite fold_left_app, IH. }
  rewrite Hflat.
  rewrite (totalOf_steps measure itemStep
             (fun i => if hasProduct i then gain i else 0%Z)).
  - unfold soldItems. now rewrite sum_over_sold.
  - intros m i. apply itemStep_total; [apply Hnew | apply Hbump].
Qed.

(** X5. The status counters count exact matches: [fulfilledOrders] is the
    number of orders whose fulfilment status is the string FULFILLED and
    [paidOrders] the number whose financial status is the string PAID, any
    other value counting for neither; neither exceeds [totalOrders]. *)
Theorem status_counts_exact_matches (l : list (Order N)) :
  let r := processAnalyticsData l in
  fulfilledOrders r
  = List.length (filter (fun o => String.eqb (displayFulfillmentStatus o) "FULFILLED") l)
  /\ paidOrders r
     = List.length (filter (fun o => String.eqb (displayFinancialStatus o) "PAID") l)
  /\ fulfilledOrders r <= totalOrders r
  /\ paidOrders r <= totalOrders r.
Proof.
  assert (Hf : fulfilledOrders (processAnalyticsData l)
               = List.length (filter (fun o => String.eqb (displayFulfillmentStatus o) "FULFILLED") l)).
  { unfold processAnalyticsData. simpl. now rewrite fold_orderStep_fulfilled. }
  assert (Hp : paidOrders (processAnalyticsData l)
               = List.length (filter (fun o => String.eqb (displayFinancialStatus o) "PAID") l)).
  { unfold processAnalyticsData. simpl. now rewrite fold_orderStep_paid. }
  intros r. unfold r. rewrite Hf, Hp.
  split; [reflexivity|]. split; [reflexivity|].
  split; apply filter_length_le.
Qed.

(** X6. Every order that has a processed date is counted under exactly one
    month: the order counts of the monthly collection add up to the number
    of such orders, hence to no more than [totalOrders], and no month label
    occurs twice in the collection. *)
Theorem monthly_orders_add_up (l : list (Order N)) :
  let r := processAnalyticsData l in
  list_sum (map (fun e => orders (snd e)) (monthlyData r))
  = List.length (filter hasDate l)
  /\ list_sum (map (fun e => orders (snd e)) (monthlyData r)) <= totalOrders r
  /\ NoDup (map_keys (monthlyData r)).
Proof.
  intros r.
  assert (Hsum : list_sum (map (fun e => orders (snd e)) (monthlyData r))
                 = List.length (filter hasDate l)).
  { apply Nat2Z.inj. rewrite <- (totalOf_nat (@orders N)).
    unfold r, processAnalyticsData. simpl. rewrite fold_orderStep_monthly.
    rewrite (totalOf_steps (fun s : Stat N => Z.of_nat (orders s)) monthlyStep
               (fun o => if hasDate o then 1%Z else 0%Z) l monthlyStep_total).
    rewrite count_as_sum. reflexivity. }
  split; [exact Hsum|]. split.
  - rewrite Hsum. apply filter_length_le.
  - unfold r. rewrite monthlyData_keys. apply fold_addKey_NoDup.
    repeat constructor; simpl; intuition discriminate.
Qed.

Lemma monthly_keys_all_2025 (l : list (Order N)) :
  (forall o d, In o l -> processedAt o = Some d ->
               In (toLocaleDateString d) months2025) ->
  map_keys (monthlyData (processAnalyticsData l)) = months2025.
Proof.
  intros Hin. rewrite monthlyData_keys.
  assert (Hall : forall k, In k (map fst (flat_map monthlyUpdates l)) -> In k months2025).
  { intros k Hk. apply monthly_keys_In in Hk. destruct Hk as (o & d & Ho & Hd & <-).
    now apply (Hin o d). }
  revert Hall. generalize (map fst (flat_map monthlyUpdates l)) as ks.
  induction ks as [|k ks IH]; intros Hall; [reflexivity|].
  cbn [fold_left]. unfold addKey at 2.
  assert (Hk : hasKey months2025 k = true) by (apply hasKey_In, Hall; now left).
  rewrite Hk. apply IH. intros k' Hk'. apply Hall. now right.
Qed.

(** X7. When every processed date falls in 2025 the monthly collection is
    exactly the twelve months of 2025 in calendar order, each holding the
    count and the revenue of the orders processed in it. *)
Theorem monthly_exactly_twelve (l : list (Order N)) :
  (forall o d, In o l -> processedAt o = Some d ->
               In (toLocaleDateString d) months2025) ->
  monthlyData (processAnalyticsData l)
  = map (fun month => (month, monthStat month l)) months2025.
Proof.
  intros Hin.
  assert (Hkeys := monthly_keys_all_2025 l Hin).
  rewrite <- Hkeys at 1. apply map_as_table.
  - rewrite Hkeys. repeat constructor; simpl; intuition discriminate.
  - intros k Hk. rewrite Hkeys in Hk. rewrite monthlyData_lookup.
    assert (Hh : hasKey months2025 k = true) by now apply hasKey_In.
    now rewrite Hh.
Qed.

(** X8. Every order that has a shipping address is counted under exactly
    one location, the one without a city, or with an empty one, under
    Unknown: the entry of a label counts the orders shipped to it, so an
    order without a city makes the entry of Unknown at least 1, and the order
    counts of the location map add up to the number of orders with an
    address.  The location list shows at most that many, its labels are all
    different, and nothing is cut when there are at most ten locations. *)
Theorem location_orders_add_up (l : list (Order N)) :
  let r := processAnalyticsData l in
  list_sum (map (fun e => orders (snd e)) (locationEntries l))
  = List.length (filter hasAddress l)
  /\ list_sum (map (fun e => orders (snd e)) (locationData r))
     <= List.length (filter hasAddress l)
  /\ NoDup (map fst (locationData r))
  /\ (List.length (locationEntries l) <= 10 ->
      Permutation (locationData r) (locationEntries l))
  /\ (forall location,
        map_get (locationEntries l) location
        = if existsb (shippedTo location) l
          then Some (statOf (filter (shippedTo location) l)) else None)
  /\ (forall o, In o l ->
        shippingAddress o = Some None \/ shippingAddress o = Some (Some "") ->
        exists s, map_get (locationEntries l) "Unknown" = Some s
                  /\ orders s = List.length (filter (shippedTo "Unknown") l)
                  /\ 1 <= orders s).
Proof.
  intros r.
  assert (Hsum : list_sum (map (fun e => orders (snd e)) (locationEntries l))
                 = List.length (filter hasAddress l)).
  { apply Nat2Z.inj. rewrite <- (totalOf_nat (@orders N)).
    unfold locationEntries, finalAcc. rewrite fold_orderStep_location.
    rewrite (totalOf_steps (fun s : Stat N => Z.of_nat (orders s)) locationStep
               (fun o => if hasAddress o then 1%Z else 0%Z) l locationStep_total).
    rewrite count_as_sum. reflexivity. }
  assert (Hr : locationData r = firstn 10 (array_sort byOrdersDesc (locationEntries l)))
    by reflexivity.
  assert (Hperm : Permutation (array_sort byOrdersDesc (locationEntries l)) (locationEntries l)).
  { apply array_sort_perm. }
  assert (Hlookup : forall location,
             map_get (locationEntries l) location
             = if existsb (shippedTo location) l
               then Some (statOf (filter (shippedTo location) l)) else None).
  { intros location. rewrite locationEntries_lookup.
    rewrite (filter_ext _ _ (atLocation_shippedTo location)).
    rewrite !existsb_filter_length.
    now rewrite (filter_ext _ _ (atLocation_shippedTo location)). }
  split; [exact Hsum|]. split; [|split; [|split; [|split]]].
  - rewrite Hr, <- Hsum, <- firstn_map.
    etransitivity; [apply list_sum_firstn|].
    apply Nat.eq_le_incl, list_sum_perm. now apply Permutation_map.
  - rewrite Hr, <- firstn_map. apply NoDup_firstn.
    apply (Permutation_NoDup (l := map fst (locationEntries l))).
    + symmetry. now apply Permutation_map.
    + rewrite locationEntries_table, map_map. cbn [fst]. rewrite map_id.
      apply firstSeen_NoDup.
  - intros Hlen. rewrite Hr, firstn_all2; [exact Hperm|].
    now rewrite (Permutation_length Hperm).
  - exact Hlookup.
  - intros o Hin Hcity.
    assert (Ho : shippedTo "Unknown" o = true).
    { unfold shippedTo. destruct Hcity as [-> | ->]; reflexivity. }
    assert (Hf : In o (filter (shippedTo "Unknown") l)) by (apply filter_In; now split).
    exists (statOf (filter (shippedTo "Unknown") l)).
    rewrite Hlookup.
    assert (He : existsb (shippedTo "Unknown") l = true)
      by (apply existsb_exists; now exists o).
    rewrite He. split; [reflexivity|]. split; [reflexivity|].
    cbn [statOf orders]. destruct (filter (shippedTo "Unknown") l); [contradiction|].
    simpl. lia.
Qed.

(** X9. Nothing sold under a product record is lost or counted twice: over
    the entries of the product map the quantities add up to the quantities
    of all line items that have a product, and the [orders] fields add up to
    the number of those line items (a title that occurs on two line items of
    one order is counted twice).  The product list has one entry per title,
    and nothing is cut when there are at most ten titles. *)
Theorem product_quantities_add_up (l : list (Order N)) :
  let r := processAnalyticsData l in
  fold_right Z.add 0%Z (map (@p_quantity N) (productEntries l))
  = fold_right Z.add 0%Z (map (@quantity N) (soldItems l))
  /\ list_sum (map (@p_orders N) (productEntries l)) = List.length (soldItems l)
  /\ NoDup (map (@p_name N) (productData r))
  /\ (List.length (productEntries l) <= 10 ->
      Permutation (productData r) (productEntries l)).
Proof.
  intros r.
  assert (Hvals : forall measure : ProductStat N -> Z,
             fold_right Z.add 0%Z (map measure (productEntries l))
             = totalOf measure (acc_productStats (finalAcc l))).
  { intros measure. unfold productEntries, map_values, totalOf. now rewrite map_map. }
  assert (Hr : productData r = firstn 10 (array_sort byQuantityDesc (productEntries l)))
    by reflexivity.
  assert (Hperm : Permutation (array_sort byQuantityDesc (productEntries l)) (productEntries l)).
  { apply array_sort_perm. }
  split; [|split; [|split]].
  - rewrite Hvals. apply productStats_total; [reflexivity | reflexivity].
  - apply Nat2Z.inj.
    assert (Hn : Z.of_nat (list_sum (map (@p_orders N) (productEntries l)))
                 = fold_right Z.add 0%Z
                     (map (fun e => Z.of_nat (p_orders e)) (productEntries l))).
    { clear. generalize (productEntries l) as es.
      induction es as [|e es IH]; simpl; [reflexivity|]. rewrite <- IH. lia. }
    rewrite Hn, Hvals.
    rewrite (productStats_total (fun e => Z.of_nat (p_orders e)) (fun _ => 1%Z)).
    + generalize (soldItems l) as items.
      induction items as [|i items IH]; [reflexivity|].
      cbn [map fold_right List.length]. rewrite IH. lia.
    + reflexivity.
    + intros i stats. simpl. lia.
  - rewrite Hr, <- firstn_map. apply NoDup_firstn.
    apply (Permutation_NoDup (l := map (@p_name N) (productEntries l))).
    + symmetry. now apply Permutation_map.
    + rewrite productEntries_table, map_map. cbn [p_name productStatOf].
      rewrite map_id. apply firstSeen_NoDup.
  - intros Hlen. rewrite Hr, firstn_all2; [exact Hperm|].
    now rewrite (Permutation_length Hperm).
Qed.

Lemma segments_weight (counts : list nat) : forall s,
  Forall (fun n => 1 <= n) counts ->
  let s' := fold_left segmentStep counts s in
  newCustomers s' + 2 * returningCustomers s' + 5 * vipCustomers s'
  <= newCustomers s + 2 * returningCustomers s + 5 * vipCustomers s + list_sum counts.
Proof.
  induction counts as [|n counts IH]; intros s Hall; [simpl; lia|].
  inversion Hall as [|? ? Hn Hrest]; subst.
  cbn [fold_left list_sum]. specialize (IH (segmentStep s n) Hrest). cbv zeta in IH.
  etransitivity; [exact IH|].
  unfold segmentStep.
  destruct (Nat.eqb_spec n 1); [simpl; lia|].
  destruct (Nat.leb_spec 5 n); simpl; lia.
Qed.

(** X10. The segments never count more than the orders allow: a new
    customer stands for one order, a returning one for at least two and a
    vip for at least five, so new + 2 returning + 5 vip is at most the number
    of orders that have a customer, hence at most [totalOrders]. *)
Theorem segments_within_orders (l : list (Order N)) :
  let r := processAnalyticsData l in
  let seg := customerSegments r in
  newCustomers seg + 2 * returningCustomers seg + 5 * vipCustomers seg
  <= List.length (filter hasCustomer l)
  /\ List.length (filter hasCustomer l) <= totalOrders r.
Proof.
  intros r seg. split; [|apply filter_length_le].
  assert (Hsum : list_sum (map_values (acc_customerOrders (finalAcc l)))
                 = List.length (filter hasCustomer l)).
  { apply Nat2Z.inj. unfold map_values.
    rewrite <- (totalOf_nat (fun n : nat => n)).
    unfold finalAcc. rewrite fold_orderStep_customer.
    rewrite (totalOf_steps (fun n : nat => Z.of_nat n) customerStep
               (fun o => if hasCustomer o then 1%Z else 0%Z) l customerStep_total).
    rewrite count_as_sum. reflexivity. }
  rewrite <- Hsum.
  assert (Hall : Forall (fun n => 1 <= n) (map_values (acc_customerOrders (finalAcc l)))).
  { rewrite customerOrders_table. unfold map_values. rewrite map_map. cbn [snd].
    apply Forall_forall. intros n Hn. apply in_map_iff in Hn.
    destruct Hn as (c & <- & Hc). now apply customersOf_In. }
  apply (@segments_weight _ noSegments Hall).
Qed.

End TotalFacts.

Lemma monthly_exactly_twelve_witness :
  monthlyData (processAnalyticsData marchAndNovember)
  = map (fun month => (month, monthStat month marchAndNovember)) months2025.
Proof.
  apply monthly_exactly_twelve.
  intros o d [<-|[<-|[]]] [= <-]; simpl; auto 13.
Defined.

(** ** The period filter of the monthly chart *)

Lemma numberText_inj (a b : Z) : numberText a = numberText b -> a = b.
Proof.
  assert (Hnil : forall z, Z.to_int z <> Decimal.Pos Decimal.Nil
                           /\ Z.to_int z <> Decimal.Neg Decimal.Nil).
  { intros z. split; intros H; pose proof (f_equal Z.of_int H) as H';
      rewrite DecimalZ.of_to in H'; simpl in H'; subst z; discriminate H. }
  unfold numberText. intros H.
  apply (f_equal NilZero.int_of_string) in H.
  rewrite !NilZero.isi in H by apply Hnil.
  injection H as H. apply (f_equal Z.of_int) in H.
  now rewrite !DecimalZ.of_to in H.
Qed.

Lemma elementText_month (k : Z) :
  (0 <= k < 12)%Z -> elementText monthNames k = shortMonth (monthAt k).
Proof.
  intros H.
  assert (Hk : (k = 0 \/ k = 1 \/ k = 2 \/ k = 3 \/ k = 4 \/ k = 5 \/ k = 6
                \/ k = 7 \/ k = 8 \/ k = 9 \/ k = 10 \/ k = 11)%Z) by lia.
  repeat (destruct Hk as [->|Hk]; [reflexivity|]). subst k. reflexivity.
Qed.

(** The label pushed at turn [i], in closed form. *)
Lemma targetLabel_closed (now : Now) (i : nat) :
  (0 <= currentMonth now < 12)%Z -> i < 12 ->
  targetLabel now i
  = (shortMonth (monthAt ((currentMonth now - Z.of_nat i) mod 12))
     ++ " " ++ numberText (currentYear now + (currentMonth now - Z.of_nat i) / 12))%string.
Proof.
  intros Hm Hi. unfold targetLabel.
  set (k := (currentMonth now - Z.of_nat i)%Z).
  assert (Hk : (-12 < k < 12)%Z) by (unfold k; lia).
  destruct (Z.ltb_spec k 0) as [Hneg|Hpos].
  - assert (Hmod : (k mod 12 = k + 12)%Z).
    { symmetry. apply (Z.mod_unique k 12 (-1)); lia. }
    assert (Hdiv : (k / 12 = -1)%Z).
    { symmetry. apply (Z.div_unique k 12 (-1) (k + 12)); lia. }
    rewrite Hmod, Hdiv, elementText_month by lia.
    now replace (currentYear now + -1)%Z with (currentYear now - 1)%Z by lia.
  - rewrite Z.mod_small, Z.div_small, Z.add_0_r, elementText_month by lia.
    reflexivity.
Qed.

Lemma monthsToShow_le (selectedPeriod : string) : monthsToShow selectedPeriod <= 12.
Proof.
  unfold monthsToShow.
  destruct (String.eqb selectedPeriod "30days"); [lia|].
  destruct (String.eqb selectedPeriod "3months"); [lia|].
  destruct (String.eqb selectedPeriod "6months"); lia.
Qed.

Lemma year_of_2025_label (mo : Month) (y : Z) :
  In (shortMonth mo ++ " " ++ numberText y)%string months2025 -> y = 2025%Z.
Proof.
  intros H. apply numberText_inj. change (numberText 2025) with "2025".
  destruct mo; simpl in H;
    repeat (destruct H as [H|H]; [try discriminate H; now inversion H|]);
    contradiction.
Qed.

Lemma filter_single_key {V} (m : JsMap V) (k : string) :
  NoDup (map_keys m) ->
  filter (fun e => existsb (String.eqb (fst e)) [k]) m
  = match map_get m k with Some v => [(k, v)] | None => [] end.
Proof.
  induction m as [|[k' v'] r IH]; intros Hnd; [reflexivity|].
  inversion Hnd as [|? ? Hnotin Hnd']; subst.
  set (f := fun e : string * V => existsb (String.eqb (fst e)) [k]) in *.
  cbn [filter map_get].
  assert (Hf : f (k', v') = String.eqb k' k) by (unfold f; simpl; apply orb_false_r).
  rewrite Hf.
  destruct (String.eqb k' k) eqn:E.
  - apply String.eqb_eq in E. subst k'. rewrite (IH Hnd').
    assert (Hnone : map_get r k = None) by now apply map_get_None.
    now rewrite Hnone.
  - now apply IH.
Qed.

Section DashboardFacts.

Context {N : JsNumber}.

Variable getTime : string -> option Z.

(** X11. The months of a period are counted back from the current month
    and cross the year boundary as a calendar does: the label pushed at turn
    i is the month (current - i) modulo 12 of the year current year +
    floor((current - i) / 12); in particular no label reads undefined. *)
Theorem months_to_include_wrap (selectedPeriod : string) (now : Now) :
  (0 <= currentMonth now < 12)%Z ->
  monthsToInclude selectedPeriod now
  = map (fun i =>
           (shortMonth (monthAt ((currentMonth now - Z.of_nat i) mod 12))
            ++ " "
            ++ numberText (currentYear now + (currentMonth now - Z.of_nat i) / 12))%string)
        (seq 0 (monthsToShow selectedPeriod))
  /\ List.length (monthsToInclude selectedPeriod now) = monthsToShow selectedPeriod
  /\ monthsToShow selectedPeriod <= 12.
Proof.
  intros Hm. split; [|split].
  - unfold monthsToInclude. apply map_ext_in. intros i Hi.
    apply in_seq in Hi. apply targetLabel_closed; [exact Hm|].
    pose proof (monthsToShow_le selectedPeriod). lia.
  - unfold monthsToInclude. now rewrite length_map, length_seq.
  - apply monthsToShow_le.
Qed.

(** X12. For a period other than the year view, the chart shows exactly
    the entries of the monthly collection whose label is one of the months of
    the period, each once, whatever the runtime makes of the dates; with
    distinct labels in the collection there are at most [monthsToShow] of
    them.  The year view shows the collection as it is. *)
Theorem filtered_monthly_data_bounds (selectedPeriod : string) (now : Now)
  (monthlyData : list (string * Stat N)) :
  NoDup (map fst monthlyData) ->
  let shown := getFilteredMonthlyData getTime selectedPeriod now monthlyData in
  (selectedPeriod = "year" -> shown = monthlyData)
  /\ (selectedPeriod <> "year" ->
      Permutation shown
        (filter (fun data => existsb (String.eqb (fst data))
                                     (monthsToInclude selectedPeriod now))
                monthlyData)
      /\ (forall e, In e shown <->
                    In e monthlyData /\ In (fst e) (monthsToInclude selectedPeriod now))
      /\ NoDup (map fst shown)
      /\ List.length shown <= monthsToShow selectedPeriod).
Proof.
  intros Hnd shown. unfold shown, getFilteredMonthlyData. split.
  - intros ->. reflexivity.
  - intros Hp. apply String.eqb_neq in Hp. rewrite Hp.
    set (filtered := filter _ monthlyData).
    assert (Hperm : Permutation (array_sort (byDate getTime) filtered) filtered)
      by apply array_sort_perm.
    assert (Hin : forall e, In e filtered <->
                            In e monthlyData
                            /\ In (fst e) (monthsToInclude selectedPeriod now)).
    { intros e. unfold filtered. rewrite filter_In, existsb_exists. split.
      - intros [He [x [Hx Heq]]]. apply String.eqb_eq in Heq. subst x. now split.
      - intros [He Hx]. split; [exact He|]. exists (fst e). split; [exact Hx|].
        apply String.eqb_refl. }
    assert (Hndf : NoDup (map fst filtered)).
    { unfold filtered. clear -Hnd. induction monthlyData as [|e m IH]; [constructor|].
      inversion Hnd as [|? ? Hnotin Hnd']; subst. cbn [filter].
      destruct (existsb _ _); [|now apply IH].
      cbn [map]. constructor; [|now apply IH].
      intros Hx. apply Hnotin. apply in_map_iff in Hx. destruct Hx as (x & Hfx & Hx).
      apply filter_In in Hx. apply in_map_iff. exists x. tauto. }
    split; [exact Hperm|]. split; [|split].
    + intros e. rewrite <- Hin. split; apply Permutation_in;
        [exact Hperm | now symmetry].
    + apply (Permutation_NoDup (l := map fst filtered)); [|exact Hndf].
      symmetry. now apply Permutation_map.
    + rewrite (Permutation_length Hperm), <- (length_map fst filtered).
      replace (monthsToShow selectedPeriod)
        with (List.length (monthsToInclude selectedPeriod now))
        by (unfold monthsToInclude; now rewrite length_map, length_seq).
      apply NoDup_incl_length; [exact Hndf|].
      intros k Hk. apply in_map_iff in Hk. destruct Hk as (e & <- & He).
      now apply Hin.
Qed.

(** X13. In any month of 2025 the view of the last 30 days shows one entry
    and only one: that of the current month, with the count and the revenue
    of the orders processed in it, also when there are none. *)
Theorem last_30_days_shows_current_month (l : list (Order N)) (mo : Month) :
  let label := toLocaleDateString (LocalDate 2025 mo) in
  getFilteredMonthlyData getTime "30days"
    {| currentMonth := monthIndex mo; currentYear := 2025 |}
    (monthlyData (processAnalyticsData l))
  = [(label, monthStat label l)].
Proof.
  intros label. unfold getFilteredMonthlyData.
  change (String.eqb "30days" "year") with false. cbv iota.
  assert (Hinc : monthsToInclude "30days"
                   {| currentMonth := monthIndex mo; currentYear := 2025 |}
                 = [label]) by (destruct mo; reflexivity).
  rewrite Hinc, filter_single_key.
  - rewrite monthlyData_lookup.
    assert (Hk : hasKey months2025 label = true) by (destruct mo; reflexivity).
    rewrite Hk. reflexivity.
  - rewrite monthlyData_keys. apply fold_addKey_NoDup.
    repeat constructor; simpl; intuition discriminate.
Qed.

(** X14. The collection is tied to 2025: when all orders were processed in
    2025 and the current year is neither 2025 nor 2026, every period but the
    year view shows an empty chart. *)
Theorem stale_year_shows_nothing (l : list (Order N)) (selectedPeriod : string)
  (now : Now) :
  selectedPeriod <> "year" ->
  (0 <= currentMonth now < 12)%Z ->
  currentYear now <> 2025%Z ->
  currentYear now <> 2026%Z ->
  (forall o d, In o l -> processedAt o = Some d ->
               In (toLocaleDateString d) months2025) ->
  getFilteredMonthlyData getTime selectedPeriod now
    (monthlyData (processAnalyticsData l))
  = [].
Proof.
  intros Hp Hm Hy Hy' Hin. unfold getFilteredMonthlyData.
  apply String.eqb_neq in Hp. rewrite Hp.
  assert (Hnone : forall e, In e (monthlyData (processAnalyticsData l)) ->
             existsb (String.eqb (fst e)) (monthsToInclude selectedPeriod now) = false).
  { intros e He.
    destruct (existsb (String.eqb (fst e)) (monthsToInclude selectedPeriod now)) eqn:E;
      [|reflexivity].
    exfalso. apply existsb_exists in E. destruct E as (x & Hx & Heq).
    apply String.eqb_eq in Heq. subst x.
    assert (H2025 : In (fst e) months2025).
    { rewrite <- (monthly_keys_all_2025 l Hin). unfold map_keys. now apply in_map. }
    unfold monthsToInclude in Hx. apply in_map_iff in Hx.
    destruct Hx as (i & Hlabel & Hi). apply in_seq in Hi.
    pose proof (monthsToShow_le selectedPeriod) as Hle.
    rewrite targetLabel_closed in Hlabel by (try exact Hm; lia).
    rewrite <- Hlabel in H2025. apply year_of_2025_label in H2025.
    assert (Hdiv : (-1 <= (currentMonth now - Z.of_nat i) / 12 <= 0)%Z).
    { split.
      - apply Z.div_le_lower_bound; lia.
      - apply Z.lt_succ_r. apply Z.div_lt_upper_bound; lia. }
    lia. }
  assert (Hfilter : filter (fun data => existsb (String.eqb (fst data))
                                               (monthsToInclude selectedPeriod now))
                           (monthlyData (processAnalyticsData l)) = []).
  { revert Hnone. generalize (monthlyData (processAnalyticsData l)) as m.
    induction m as [|e m IH]; intros Hnone; [reflexivity|].
    cbn [filter]. rewrite (Hnone e (or_introl eq_refl)).
    apply IH. intros e' He'. apply Hnone. now right. }
  rewrite Hfilter. reflexivity.
Qed.

End DashboardFacts.

(** X15. The quotient of the Fulfillment Rate card is not guarded: with no
    orders it is 0 / 0, which is NaN, while [averageOrderValue] of the same
    summary is 0. *)
Theorem fulfillment_ratio_of_no_orders (l : list (Order float64)) :
  totalOrders (processAnalyticsData l) = 0 ->
  PrimFloat.is_nan (fulfillmentRatio (processAnalyticsData l)) = true
  /\ averageOrderValue (processAnalyticsData l) = 0%float.
Proof.
  intros H. assert (Hl : l = []) by (destruct l; [reflexivity | discriminate H]).
  subst l. split; vm_compute; reflexivity.
Qed.

Lemma months_to_include_wrap_witness :
  monthsToInclude "3months" {| currentMonth := 0; currentYear := 2026 |}
  = ["Jan 2026"; "Dec 2025"; "Nov 2025"].
Proof.
  destruct (months_to_include_wrap "3months" {| currentMonth := 0; currentYear := 2026 |})
    as (Heq & _); [simpl; lia|].
  rewrite Heq. reflexivity.
Defined.

Lemma filtered_monthly_data_bounds_witness :
  List.length
    (getFilteredMonthlyData sampleGetTime "6months"
       {| currentMonth := 1; currentYear := 2026 |}
       (monthlyData (processAnalyticsData marchAndNovember)))
  <= 6.
Proof.
  destruct (@filtered_monthly_data_bounds float64 sampleGetTime "6months"
              {| currentMonth := 1; currentYear := 2026 |}
              (monthlyData (processAnalyticsData marchAndNovember)))
    as (_ & Hshown).
  - vm_compute. repeat constructor; simpl; intuition discriminate.
  - destruct Hshown as (_ & _ & _ & Hlen); [discriminate | exact Hlen].
Defined.

Lemma stale_year_shows_nothing_witness :
  getFilteredMonthlyData sampleGetTime "3months"
    {| currentMonth := 10; currentYear := 2027 |}
    (monthlyData (processAnalyticsData marchAndNovember))
  = [].
Proof.
  apply (@stale_year_shows_nothing float64 sampleGetTime marchAndNovember "3months"
           {| currentMonth := 10; currentYear := 2027 |}).
  - discriminate.
  - simpl. lia.
  - discriminate.
  - discriminate.
  - intros o d [<-|[<-|[]]] [= <-]; simpl; auto 13.
Defined.

Lemma fulfillment_ratio_of_no_orders_witness :
  PrimFloat.is_nan (fulfillmentRatio (processAnalyticsData [])) = true.
Proof.
  apply (fulfillment_ratio_of_no_orders []). reflexivity.
Defined.
